(** * Multi-touch gesture decoder ([src/lib/gesture.ts])

    A shallow embedding of the [GestureDecoder] class and the proofs of its
    specification.  The decoder keeps a cache of the active pointers, two
    anchors (the drag origin and the zoom distance) and six optional
    callbacks; every pointer notification updates the cache and, depending
    on the size of the cache, starts, updates or stops a gesture.

    - A JavaScript [number] is an IEEE 754 binary64 value: it is modelled by
      the primitive floats of the kernel, whose operations are the same
      correctly rounded binary64 operations.
    - Reading a property of [undefined] ([this.cache[0].clientX] on an empty
      cache) raises a [TypeError]: the methods live in a state and error
      monad, and an access out of range is a [Throw].
    - Calling a registered callback is recorded in the trace of the run. *)

From Stdlib Require Import ZArith Floats Lia.
From stdpp Require Import base numbers list.

(** ** Event payloads *)

(** [interface DragEvent { readonly x: number; readonly y: number }] *)
Module DragEvent.
Record t : Type := mk { x : float; y : float }.
End DragEvent.

(** [interface ZoomEvent { readonly x, y, scale: number }] *)
Module ZoomEvent.
Record t : Type := mk { x : float; y : float; scale : float }.
End ZoomEvent.

(** The keys of [EventMap]. *)
Inductive EventKind : Type :=
  | dragstart | dragupdate | dragstop
  | zoomstart | zoomupdate | zoomstop.

(** The part of the DOM's [PointerEvent] that the decoder reads.  [pointerId]
    is a Web IDL [long]; [clientX] and [clientY] are Web IDL [double]s, a type
    that holds no NaN and no infinity (only [unrestricted double] does), so a
    pointer event carries finite coordinates. *)
Record PointerEvent : Type := mkPointerEvent {
  pointerId : Z;
  clientX : float;
  clientY : float;
  clientX_finite : is_finite clientX = true;
  clientY_finite : is_finite clientY = true
}.

(** A callback is opaque to the decoder, which only compares it with [null]
    and calls it: it is represented by a name. *)
Definition DragEventHandler : Type := nat.
Definition ZoomEventHandler : Type := nat.

(** One call of a registered callback: the slot that was called and the
    payload it received. *)
Inductive Emitted : Type :=
  | Dragstart (e : DragEvent.t)
  | Dragupdate (e : DragEvent.t)
  | Dragstop (e : DragEvent.t)
  | Zoomstart (e : ZoomEvent.t)
  | Zoomupdate (e : ZoomEvent.t)
  | Zoomstop (e : ZoomEvent.t).

(** ** The decoder's private fields *)

Record GestureDecoder : Type := mkGestureDecoder {
  cache : list PointerEvent;
  x : float;
  y : float;
  delta : float;
  dragStartHandler : option DragEventHandler;
  dragUpdateHandler : option DragEventHandler;
  dragStopHandler : option DragEventHandler;
  zoomStartHandler : option ZoomEventHandler;
  zoomUpdateHandler : option ZoomEventHandler;
  zoomStopHandler : option ZoomEventHandler
}.

(** The field initialisers of the class. *)
Definition new_GestureDecoder : GestureDecoder :=
  {| cache := []; x := 0; y := 0; delta := 0;
     dragStartHandler := None; dragUpdateHandler := None;
     dragStopHandler := None; zoomStartHandler := None;
     zoomUpdateHandler := None; zoomStopHandler := None |}.

Definition set_cache (l : list PointerEvent) (s : GestureDecoder) : GestureDecoder :=
  {| cache := l; x := x s; y := y s; delta := delta s;
     dragStartHandler := dragStartHandler s;
     dragUpdateHandler := dragUpdateHandler s;
     dragStopHandler := dragStopHandler s;
     zoomStartHandler := zoomStartHandler s;
     zoomUpdateHandler := zoomUpdateHandler s;
     zoomStopHandler := zoomStopHandler s |}.

Definition set_x (v : float) (s : GestureDecoder) : GestureDecoder :=
  {| cache := cache s; x := v; y := y s; delta := delta s;
     dragStartHandler := dragStartHandler s;
     dragUpdateHandler := dragUpdateHandler s;
     dragStopHandler := dragStopHandler s;
     zoomStartHandler := zoomStartHandler s;
     zoomUpdateHandler := zoomUpdateHandler s;
     zoomStopHandler := zoomStopHandler s |}.

Definition set_y (v : float) (s : GestureDecoder) : GestureDecoder :=
  {| cache := cache s; x := x s; y := v; delta := delta s;
     dragStartHandler := dragStartHandler s;
     dragUpdateHandler := dragUpdateHandler s;
     dragStopHandler := dragStopHandler s;
     zoomStartHandler := zoomStartHandler s;
     zoomUpdateHandler := zoomUpdateHandler s;
     zoomStopHandler := zoomStopHandler s |}.

Definition set_delta (v : float) (s : GestureDecoder) : GestureDecoder :=
  {| cache := cache s; x := x s; y := y s; delta := v;
     dragStartHandler := dragStartHandler s;
     dragUpdateHandler := dragUpdateHandler s;
     dragStopHandler := dragStopHandler s;
     zoomStartHandler := zoomStartHandler s;
     zoomUpdateHandler := zoomUpdateHandler s;
     zoomStopHandler := zoomStopHandler s |}.

(** ** The monad of the methods: state, trace of callback calls, exceptions *)

Inductive JsError : Type := TypeError.

Inductive Result (A : Type) : Type :=
  | Ok (a : A) (s : GestureDecoder) (out : list Emitted)
  | Throw (e : JsError).
Arguments Ok {A} a s out.
Arguments Throw {A} e.

Definition M (A : Type) : Type := GestureDecoder -> Result A.

Definition ret {A} (a : A) : M A := fun s => Ok a s [].

Definition bind {A B} (m : M A) (k : A -> M B) : M B :=
  fun s =>
    match m s with
    | Ok a s1 out1 =>
        match k a s1 with
        | Ok b s2 out2 => Ok b s2 (out1 ++ out2)
        | Throw e => Throw e
        end
    | Throw e => Throw e
    end.

Notation "'do' v <- m ; k" := (bind m (fun v => k))
  (at level 10, v name, m at level 100, k at level 200).
Notation "m ;; k" := (bind m (fun _ => k))
  (at level 100, k at level 200, right associativity).

(** [this.f] *)
Definition this {A} (f : GestureDecoder -> A) : M A := fun s => Ok (f s) s [].

(** [this.f = v] *)
Definition assign (upd : GestureDecoder -> GestureDecoder) : M unit :=
  fun s => Ok tt (upd s) [].

(** [this.cache[i]] where a property of the element is read next: an index
    out of range yields [undefined], and the property access throws. *)
Definition cache_at (i : nat) : M PointerEvent :=
  fun s =>
    match cache s !! i with
    | Some c => Ok c s []
    | None => Throw TypeError
    end.

(** [handler(payload)] *)
Definition call (e : Emitted) : M unit := fun s => Ok tt s [e].

(** [if (handler != null) { body }] *)
Definition when_registered {H} (handler : option H) (body : M unit) : M unit :=
  match handler with
  | Some _ => body
  | None => ret tt
  end.

Section Methods.
Local Open Scope float_scope.

(** [on(type, handler)]: the handler replaces the one of its kind. *)
Definition on (type : EventKind) (handler : nat) : M unit :=
  assign (fun s =>
    let h := Some handler in
    match type with
    | dragstart =>
        mkGestureDecoder (cache s) (x s) (y s) (delta s)
          h (dragUpdateHandler s) (dragStopHandler s)
          (zoomStartHandler s) (zoomUpdateHandler s) (zoomStopHandler s)
    | dragupdate =>
        mkGestureDecoder (cache s) (x s) (y s) (delta s)
          (dragStartHandler s) h (dragStopHandler s)
          (zoomStartHandler s) (zoomUpdateHandler s) (zoomStopHandler s)
    | dragstop =>
        mkGestureDecoder (cache s) (x s) (y s) (delta s)
          (dragStartHandler s) (dragUpdateHandler s) h
          (zoomStartHandler s) (zoomUpdateHandler s) (zoomStopHandler s)
    | zoomstart =>
        mkGestureDecoder (cache s) (x s) (y s) (delta s)
          (dragStartHandler s) (dragUpdateHandler s) (dragStopHandler s)
          h (zoomUpdateHandler s) (zoomStopHandler s)
    | zoomupdate =>
        mkGestureDecoder (cache s) (x s) (y s) (delta s)
          (dragStartHandler s) (dragUpdateHandler s) (dragStopHandler s)
          (zoomStartHandler s) h (zoomStopHandler s)
    | zoomstop =>
        mkGestureDecoder (cache s) (x s) (y s) (delta s)
          (dragStartHandler s) (dragUpdateHandler s) (dragStopHandler s)
          (zoomStartHandler s) (zoomUpdateHandler s) h
    end).

(** The payload built by the three drag methods:
    [{ x: this.cache[0].clientX - this.x, y: this.cache[0].clientY - this.y }] *)
Definition drag_payload : M DragEvent.t :=
  do c0 <- cache_at 0;
  do ax <- this x;
  do c0' <- cache_at 0;
  do ay <- this y;
  ret (DragEvent.mk (clientX c0 - ax) (clientY c0' - ay)).

Definition startDrag : M unit :=
  do c0 <- cache_at 0;
  assign (set_x (clientX c0));;
  do c0' <- cache_at 0;
  assign (set_y (clientY c0'));;
  do h <- this dragStartHandler;
  when_registered h (do e <- drag_payload; call (Dragstart e)).

Definition updateDrag : M unit :=
  do h <- this dragUpdateHandler;
  when_registered h (do e <- drag_payload; call (Dragupdate e)).

Definition stopDrag : M unit :=
  do h <- this dragStopHandler;
  when_registered h (do e <- drag_payload; call (Dragstop e)).

(** [const x = (this.cache[0].clientX + this.cache[1].clientX) / 2;]
    [const y = (this.cache[0].clientY + this.cache[1].clientY) / 2;] *)
Definition zoom_center : M (float * float) :=
  do a <- cache_at 0;
  do b <- cache_at 1;
  do a' <- cache_at 0;
  do b' <- cache_at 1;
  ret ((clientX a + clientX b) / 2, (clientY a' + clientY b') / 2).

(** [const deltaX = this.cache[0].clientX - this.cache[1].clientX;]
    [const deltaY = this.cache[0].clientY - this.cache[1].clientY;]
    [Math.sqrt(deltaX*deltaX + deltaY*deltaY)] *)
Definition zoom_distance : M float :=
  do a <- cache_at 0;
  do b <- cache_at 1;
  let deltaX := clientX a - clientX b in
  do a' <- cache_at 0;
  do b' <- cache_at 1;
  let deltaY := clientY a' - clientY b' in
  ret (sqrt (deltaX * deltaX + deltaY * deltaY)).

Definition startZoom : M unit :=
  do d <- zoom_distance;
  assign (set_delta d);;
  do h <- this zoomStartHandler;
  when_registered h
    (do c <- zoom_center;
     call (Zoomstart (ZoomEvent.mk (fst c) (snd c) 1))).

(** In [updateZoom] and [stopZoom] the centre is computed before the
    distance, and the division by [this.delta] has no guard. *)
Definition updateZoom : M unit :=
  do h <- this zoomUpdateHandler;
  when_registered h
    (do c <- zoom_center;
     do d <- zoom_distance;
     do anchor <- this delta;
     call (Zoomupdate (ZoomEvent.mk (fst c) (snd c) (d / anchor)))).

Definition stopZoom : M unit :=
  do h <- this zoomStopHandler;
  when_registered h
    (do c <- zoom_center;
     do d <- zoom_distance;
     do anchor <- this delta;
     call (Zoomstop (ZoomEvent.mk (fst c) (snd c) (d / anchor)))).

(** The scan shared by the loops of [handlePointerMove] and [handlePointerUp]:
    [for (let i = 0; i < this.cache.length; ++i)]
    [  if (this.cache[i].pointerId == event.pointerId) { ...; break; }]
    The body runs once, at the first index whose pointer has the identity of
    the event, or not at all. *)
Definition first_index (event : PointerEvent) (l : list PointerEvent) : option nat :=
  fst <$> list_find (fun c => pointerId c = pointerId event) l.

(** The loop of [handlePointerMove]; its body is [this.cache[i] = event]. *)
Definition update_loop (event : PointerEvent) : M unit :=
  do l <- this cache;
  match first_index event l with
  | Some i => assign (set_cache (<[i := event]> l))
  | None => ret tt
  end.

(** The loop of [handlePointerUp]; its body is [this.cache.splice(i, 1)]. *)
Definition remove_loop (event : PointerEvent) : M unit :=
  do l <- this cache;
  match first_index event l with
  | Some i => assign (set_cache (delete i l))
  | None => ret tt
  end.

Definition handlePointerDown (event : PointerEvent) : M unit :=
  (* this.cache.push(event) *)
  assign (fun s => set_cache (cache s ++ [event]) s);;
  do l <- this cache;
  match length l with
  | 1 => startDrag
  | 2 => stopDrag;; startZoom
  | 3 => stopZoom
  | _ => ret tt
  end.

Definition handlePointerMove (event : PointerEvent) : M unit :=
  update_loop event;;
  do l <- this cache;
  match length l with
  | 1 => updateDrag
  | 2 => updateZoom
  | _ => ret tt
  end.

Definition handlePointerUp (event : PointerEvent) : M unit :=
  do l <- this cache;
  do deferStartDrag <-
    match length l with
    | 1 => stopDrag;; ret false
    | 2 => stopZoom;; ret true
    | 3 => startZoom;; ret false
    | _ => ret false
    end;
  remove_loop event;;
  if deferStartDrag : bool then startDrag else ret tt.

End Methods.

(** ** The input source *)

(** The constructor binds [pointerdown] to [handlePointerDown], [pointermove]
    to [handlePointerMove], and [pointerup], [pointercancel], [pointerout] and
    [pointerleave] all to [handlePointerUp]. *)
Inductive Notification : Type :=
  | PointerDown (event : PointerEvent)
  | PointerMove (event : PointerEvent)
  | PointerUp (event : PointerEvent).

Definition handle (n : Notification) : M unit :=
  match n with
  | PointerDown event => handlePointerDown event
  | PointerMove event => handlePointerMove event
  | PointerUp event => handlePointerUp event
  end.

(** A sequence of notifications, each processed to completion before the
    next one is accepted. *)
Fixpoint run (ns : list Notification) : M unit :=
  match ns with
  | [] => ret tt
  | n :: ns' => handle n;; run ns'
  end.

(** A pointer event with literal coordinates. *)
Notation "'pt' id px py" :=
  (mkPointerEvent id%Z px%float py%float eq_refl eq_refl)
  (at level 10, id at level 9, px at level 9, py at level 9).

(** ** Vocabulary of the specification *)

Section Vocabulary.
Local Open Scope float_scope.

(** Dispatch: firing an event whose kind has no registered handler is a
    silent no-op. *)
Definition dispatch {H} (handler : option H) (e : Emitted) : list Emitted :=
  match handler with
  | Some _ => [e]
  | None => []
  end.

(** The Euclidean distance between two contacts. *)
Definition distance (a b : PointerEvent) : float :=
  sqrt ((clientX a - clientX b) * (clientX a - clientX b)
        + (clientY a - clientY b) * (clientY a - clientY b)).

(** The midpoint of two contacts. *)
Definition midpoint (a b : PointerEvent) : float * float :=
  ((clientX a + clientX b) / 2, (clientY a + clientY b) / 2).

(** The displacement of a contact from the drag anchor of a decoder. *)
Definition displacement (c : PointerEvent) (s : GestureDecoder) : DragEvent.t :=
  DragEvent.mk (clientX c - x s) (clientY c - y s).

(** A zoom payload: the midpoint of the pair, and its distance divided by
    an anchor distance. *)
Definition zoom_event (a b : PointerEvent) (anchor : float) : ZoomEvent.t :=
  ZoomEvent.mk (fst (midpoint a b)) (snd (midpoint a b)) (distance a b / anchor).

(** The payload of a zoomstart: the midpoint of the pair and scale 1. *)
Definition zoom_start_event (a b : PointerEvent) : ZoomEvent.t :=
  ZoomEvent.mk (fst (midpoint a b)) (snd (midpoint a b)) 1.

(** The displacement (0, 0). *)
Definition zero_displacement : DragEvent.t := DragEvent.mk 0 0.

(** The drag anchor of a decoder is the position of a contact. *)
Definition anchored_at (s : GestureDecoder) (c : PointerEvent) : Prop :=
  x s = clientX c /\ y s = clientY c.

(** A notification's identity matches no contact of the cache. *)
Definition unmatched (event : PointerEvent) (s : GestureDecoder) : Prop :=
  forall c, c ∈ cache s -> pointerId c <> pointerId event.

(** No handler is registered. *)
Definition no_handlers (s : GestureDecoder) : Prop :=
  dragStartHandler s = None /\ dragUpdateHandler s = None /\
  dragStopHandler s = None /\ zoomStartHandler s = None /\
  zoomUpdateHandler s = None /\ zoomStopHandler s = None.

(** Two decoders have the same registered handlers. *)
Definition same_handlers (s s' : GestureDecoder) : Prop :=
  dragStartHandler s' = dragStartHandler s /\
  dragUpdateHandler s' = dragUpdateHandler s /\
  dragStopHandler s' = dragStopHandler s /\
  zoomStartHandler s' = zoomStartHandler s /\
  zoomUpdateHandler s' = zoomUpdateHandler s /\
  zoomStopHandler s' = zoomStopHandler s.

(** The identities of the cached contacts, in cache order. *)
Definition ids (l : list PointerEvent) : list Z := pointerId <$> l.

(** What a method leaves of a decoder when it returns. *)
Definition leaves {A} (r : Result A) (P : GestureDecoder -> Prop) : Prop :=
  match r with
  | Ok _ s' _ => P s'
  | Throw _ => True
  end.

End Vocabulary.

(** ** What the code computes, in closed form

    The lists the two loops leave in the cache, the decoder and the trace
    each entry point produces, and the decoders and notions the theorems
    below are stated with.  The lemmas of the next part prove that the
    methods compute them. *)

(** The cache after the loop of [handlePointerMove]. *)
Definition replaced (event : PointerEvent) (l : list PointerEvent) : list PointerEvent :=
  match first_index event l with
  | Some i => <[i := event]> l
  | None => l
  end.

(** The cache after the loop of [handlePointerUp]. *)
Definition removed (event : PointerEvent) (l : list PointerEvent) : list PointerEvent :=
  match first_index event l with
  | Some i => delete i l
  | None => l
  end.

(** The state left by [startDrag] on a cache whose first contact is [c]. *)
Definition drag_started (c : PointerEvent) (s : GestureDecoder) : GestureDecoder :=
  set_y (clientY c) (set_x (clientX c) s).

(** The decoder and the trace after [handlePointerDown], by the size of the
    cache before the push. *)
Definition down_result (event : PointerEvent) (s : GestureDecoder)
    : GestureDecoder * list Emitted :=
  let s1 := set_cache (cache s ++ [event]) s in
  match cache s with
  | [] =>
      (drag_started event s1,
       dispatch (dragStartHandler s) (Dragstart zero_displacement))
  | [a] =>
      (set_delta (distance a event) s1,
       dispatch (dragStopHandler s) (Dragstop (displacement a s))
       ++ dispatch (zoomStartHandler s) (Zoomstart (zoom_start_event a event)))
  | [a; b] =>
      (s1, dispatch (zoomStopHandler s) (Zoomstop (zoom_event a b (delta s))))
  | _ => (s1, [])
  end.

(** The decoder and the trace after [handlePointerMove], by the size of the
    cache. *)
Definition move_result (event : PointerEvent) (s : GestureDecoder)
    : GestureDecoder * list Emitted :=
  let s1 := set_cache (replaced event (cache s)) s in
  match cache s1 with
  | [c] => (s1, dispatch (dragUpdateHandler s) (Dragupdate (displacement c s)))
  | [a; b] =>
      (s1, dispatch (zoomUpdateHandler s) (Zoomupdate (zoom_event a b (delta s))))
  | _ => (s1, [])
  end.

(** The decoder and the trace after [handlePointerUp], by the size of the
    cache before the removal. *)
Definition up_result (event : PointerEvent) (s : GestureDecoder)
    : GestureDecoder * list Emitted :=
  let l' := removed event (cache s) in
  match cache s with
  | [c] =>
      (set_cache l' s, dispatch (dragStopHandler s) (Dragstop (displacement c s)))
  | [a; b] =>
      (match l' with
       | r :: _ => drag_started r (set_cache l' s)
       | [] => set_cache l' s
       end,
       dispatch (zoomStopHandler s) (Zoomstop (zoom_event a b (delta s)))
       ++ dispatch (dragStartHandler s) (Dragstart zero_displacement))
  | [a; b; c] =>
      (set_cache l' (set_delta (distance a b) s),
       dispatch (zoomStartHandler s) (Zoomstart (zoom_start_event a b)))
  | _ => (set_cache l' s, [])
  end.

(** The decoder and the trace after one notification, and after a sequence. *)
Definition result (n : Notification) (s : GestureDecoder)
    : GestureDecoder * list Emitted :=
  match n with
  | PointerDown event => down_result event s
  | PointerMove event => move_result event s
  | PointerUp event => up_result event s
  end.

Fixpoint run_result (ns : list Notification) (s : GestureDecoder)
    : GestureDecoder * list Emitted :=
  match ns with
  | [] => (s, [])
  | n :: ns' =>
      let r := result n s in
      let r' := run_result ns' (fst r) in
      (fst r', snd r ++ snd r')
  end.

(** The cache after one notification. *)
Definition cache_after (n : Notification) (l : list PointerEvent) : list PointerEvent :=
  match n with
  | PointerDown event => l ++ [event]
  | PointerMove event => replaced event l
  | PointerUp event => removed event l
  end.

(** The identities of the contact-added notifications, in arrival order. *)
Fixpoint arrivals (ns : list Notification) : list Z :=
  match ns with
  | [] => []
  | PointerDown event :: ns' => pointerId event :: arrivals ns'
  | _ :: ns' => arrivals ns'
  end.

(** The identities of the currently active contacts, in arrival order, as the
    specification tracks them: a contact is active from the notification that
    adds it to the one that removes it. *)
Fixpoint active (act : list Z) (ns : list Notification) : list Z :=
  match ns with
  | [] => act
  | PointerDown event :: ns' => active (act ++ [pointerId event]) ns'
  | PointerMove _ :: ns' => active act ns'
  | PointerUp event :: ns' =>
      active (filter (fun i => i <> pointerId event) act) ns'
  end.

(** The input source keeps identities unique among the simultaneously active
    contacts: no contact is added under the identity of an active one. *)
Fixpoint fresh_adds (act : list Z) (ns : list Notification) : bool :=
  match ns with
  | [] => true
  | PointerDown event :: ns' =>
      negb (bool_decide (pointerId event ∈ act))
      && fresh_adds (act ++ [pointerId event]) ns'
  | PointerMove _ :: ns' => fresh_adds act ns'
  | PointerUp event :: ns' =>
      fresh_adds (filter (fun i => i <> pointerId event) act) ns'
  end.

(** The cache after a sequence of notifications. *)
Definition cache_run (ns : list Notification) (l : list PointerEvent)
    : list PointerEvent :=
  foldl (fun l n => cache_after n l) l ns.

(** ** Contacts and decoders on which the theorems are exercised *)

Definition contactA : PointerEvent := pt 1 0 0.
Definition contactB : PointerEvent := pt 2 10 0.
Definition contactC : PointerEvent := pt 3 4 3.
Definition contactB' : PointerEvent := pt 2 20 0.
Definition stranger : PointerEvent := pt 7 1 1.

(** A decoder with a handler of every kind. *)
Definition listening : GestureDecoder :=
  {| cache := []; x := 0; y := 0; delta := 0;
     dragStartHandler := Some 0; dragUpdateHandler := Some 1;
     dragStopHandler := Some 2; zoomStartHandler := Some 3;
     zoomUpdateHandler := Some 4; zoomStopHandler := Some 5 |}.

(** Three contacts are down. *)
Definition frozen : GestureDecoder :=
  {| cache := [contactA; contactB; contactC]; x := 0; y := 0; delta := 10;
     dragStartHandler := Some 0; dragUpdateHandler := Some 1;
     dragStopHandler := Some 2; zoomStartHandler := Some 3;
     zoomUpdateHandler := Some 4; zoomStopHandler := Some 5 |}.

(** Two contacts are zooming; the second one has moved. *)
Definition zooming : GestureDecoder :=
  {| cache := [contactA; contactB']; x := 0; y := 0; delta := 10;
     dragStartHandler := Some 0; dragUpdateHandler := Some 1;
     dragStopHandler := Some 2; zoomStartHandler := Some 3;
     zoomUpdateHandler := Some 4; zoomStopHandler := Some 5 |}.

(** A single contact is dragging: [cache[0]] has moved away from the anchor. *)
Definition dragging : GestureDecoder :=
  {| cache := [pt 1 15 12]; x := 10; y := 10; delta := 0;
     dragStartHandler := Some 0; dragUpdateHandler := Some 1;
     dragStopHandler := Some 2; zoomStartHandler := Some 3;
     zoomUpdateHandler := Some 4; zoomStopHandler := Some 5 |}.

(** Two contacts pressed at the same position, then the second one moved. *)
Definition degenerate : GestureDecoder :=
  {| cache := [pt 1 5 5; pt 2 8 9]; x := 5; y := 5; delta := 0;
     dragStartHandler := Some 0; dragUpdateHandler := Some 1;
     dragStopHandler := Some 2; zoomStartHandler := Some 3;
     zoomUpdateHandler := Some 4; zoomStopHandler := Some 5 |}.

(** Two contacts are zooming, and [cache[0]] has moved since its drag
    started. *)
Definition pinching : GestureDecoder :=
  {| cache := [pt 1 14 2; pt 2 20 10]; x := 10; y := 10; delta := 10;
     dragStartHandler := Some 0; dragUpdateHandler := Some 1;
     dragStopHandler := Some 2; zoomStartHandler := Some 3;
     zoomUpdateHandler := Some 4; zoomStopHandler := Some 5 |}.

(** One contact is down and a second one is about to land on it. *)
Definition coincident : GestureDecoder :=
  {| cache := [pt 1 5 5; pt 2 5 5]; x := 5; y := 5; delta := 3;
     dragStartHandler := Some 0; dragUpdateHandler := Some 1;
     dragStopHandler := Some 2; zoomStartHandler := Some 3;
     zoomUpdateHandler := Some 4; zoomStopHandler := Some 5 |}.

(** A session in which identity 1 is released and pressed again, and a
    removal arrives for a contact that was never added. *)
Definition session : list Notification :=
  [PointerDown contactA; PointerDown contactB; PointerMove contactB';
   PointerDown contactC; PointerUp contactA; PointerDown contactA;
   PointerUp stranger].

(** ** The constructor and the public surface

    [new GestureDecoder(element)] adds six listeners to the element; a call
    of the public method [on] or the delivery of one DOM event is all a user
    of the class can make happen. *)

(** The event types the constructor listens to. *)
Inductive DomEventType : Type :=
  | pointerdown | pointermove
  | pointerup | pointercancel | pointerout | pointerleave.

(** The method the constructor binds to each event type:
    [element.addEventListener('pointerdown', this.handlePointerDown.bind(this))],
    [... 'pointermove', this.handlePointerMove ...], and [handlePointerUp] for
    ['pointerup'], ['pointercancel'], ['pointerout'] and ['pointerleave']. *)
Definition listener (type : DomEventType) (event : PointerEvent) : M unit :=
  match type with
  | pointerdown => handlePointerDown event
  | pointermove => handlePointerMove event
  | pointerup | pointercancel | pointerout | pointerleave =>
      handlePointerUp event
  end.

(** The notification a DOM event amounts to. *)
Definition notification_of (type : DomEventType) (event : PointerEvent)
    : Notification :=
  match type with
  | pointerdown => PointerDown event
  | pointermove => PointerMove event
  | pointerup | pointercancel | pointerout | pointerleave => PointerUp event
  end.

(** What a user of a decoder does with it. *)
Inductive Action : Type :=
  | Register (type : EventKind) (handler : nat)
  | Deliver (type : DomEventType) (event : PointerEvent).

Definition perform (a : Action) : M unit :=
  match a with
  | Register type handler => on type handler
  | Deliver type event => listener type event
  end.

Fixpoint perform_all (acts : list Action) : M unit :=
  match acts with
  | [] => ret tt
  | a :: acts' => perform a;; perform_all acts'
  end.

(** ** Further vocabulary *)

(** The handler field that [on] writes for a kind. *)
Definition handler_of (type : EventKind) (s : GestureDecoder) : option nat :=
  match type with
  | dragstart => dragStartHandler s
  | dragupdate => dragUpdateHandler s
  | dragstop => dragStopHandler s
  | zoomstart => zoomStartHandler s
  | zoomupdate => zoomUpdateHandler s
  | zoomstop => zoomStopHandler s
  end.



(** A handler is registered for every kind. *)
Definition all_handlers (s : GestureDecoder) : Prop :=
  forall type, is_Some (handler_of type s).

(** Two decoders have the same anchors. *)
Definition same_anchors (s s' : GestureDecoder) : Prop :=
  x s' = x s /\ y s' = y s /\ delta s' = delta s.

(** The displacement of a position from another one. *)
Definition offset (c origin : PointerEvent) : DragEvent.t :=
  DragEvent.mk (clientX c - clientX origin)%float
               (clientY c - clientY origin)%float.

(** The identity of an event is that of a cached contact. *)
Definition cached (event : PointerEvent) (l : list PointerEvent) : bool :=
  bool_decide (pointerId event ∈ ids l).

(** Every removal of a sequence is for a contact cached when it arrives. *)
Fixpoint removals_matched (l : list PointerEvent) (ns : list Notification)
    : bool :=
  match ns with
  | [] => true
  | n :: ns' =>
      match n with
      | PointerUp event => cached event l
      | _ => true
      end
      && removals_matched (cache_after n l) ns'
  end.

(** The gesture in progress, as a handler sees it: between a dragstart and
    its dragstop, between a zoomstart and its zoomstop, or neither. *)
Inductive Phase : Type := Idle | Dragging | Zooming.

(** The gesture in progress by the size of the cache. *)
Definition phase_of_size (n : nat) : Phase :=
  match n with
  | 1 => Dragging
  | 2 => Zooming
  | _ => Idle
  end.

(** The events a handler may see next, and the phase each leads to: a start
    when idle, updates and the matching stop during a gesture. *)
Definition phase_step (p : Phase) (e : Emitted) : option Phase :=
  match p, e with
  | Idle, Dragstart _ => Some Dragging
  | Dragging, Dragupdate _ => Some Dragging
  | Dragging, Dragstop _ => Some Idle
  | Idle, Zoomstart _ => Some Zooming
  | Zooming, Zoomupdate _ => Some Zooming
  | Zooming, Zoomstop _ => Some Idle
  | _, _ => None
  end.

Fixpoint phase_run (p : Phase) (out : list Emitted) : option Phase :=
  match out with
  | [] => Some p
  | e :: out' =>
      match phase_step p e with
      | Some p' => phase_run p' out'
      | None => None
      end
  end.

(** An event is an update. *)
Definition is_update (e : Emitted) : bool :=
  match e with
  | Dragupdate _ | Zoomupdate _ => true
  | _ => false
  end.

(** The first contact, moved. *)
Definition contactA' : PointerEvent := pt 1 8 5.

(** Four contacts are down. *)
Definition crowded : GestureDecoder :=
  {| cache := [contactA; contactB; contactC; stranger];
     x := 0; y := 0; delta := 10;
     dragStartHandler := Some 0; dragUpdateHandler := Some 1;
     dragStopHandler := Some 2; zoomStartHandler := Some 3;
     zoomUpdateHandler := Some 4; zoomStopHandler := Some 5 |}.



(** The events a notification may fire: a [pointermove] fires updates only,
    the other notifications never fire one. *)
Definition fits (n : Notification) (e : Emitted) : bool :=
  match n with
  | PointerMove _ => is_update e
  | _ => negb (is_update e)
  end.

(** A notification is not the addition of a contact. *)
Definition not_added (n : Notification) : bool :=
  match n with
  | PointerDown _ => false
  | _ => true
  end.

(** What a removal must satisfy to be matched in a cache. *)
Definition matched_if_removal (n : Notification) (l : list PointerEvent) : bool :=
  match n with
  | PointerUp event => cached event l
  | _ => true
  end.

(** ** Facts about binary64 arithmetic *)

Section FloatFacts.
Local Open Scope float_scope.

Lemma is_finite_SF (a : float) :
  is_finite a = true ->
  (exists sg, Prim2SF a = S754_zero sg)
  \/ (exists sg m e, Prim2SF a = S754_finite sg m e).
Proof.
  unfold is_finite, is_nan, is_infinity.
  rewrite !FloatAxioms.eqb_spec, abs_spec.
  change (Prim2SF infinity) with (S754_infinity false).
  destruct (Prim2SF a) as [sg|sg| |sg m e]; cbn; try discriminate; eauto.
  destruct sg; discriminate.
Qed.

(** A finite number minus itself is [+0]. *)
Lemma sub_diag_finite (a : float) : is_finite a = true -> a - a = 0.
Proof.
  intros H. apply Prim2SF_inj. rewrite sub_spec.
  change (Prim2SF 0) with (S754_zero false).
  destruct (is_finite_SF a H) as [[sg ->]|(sg & m & e & ->)].
  - now destruct sg.
  - unfold SF64sub, SFsub. rewrite Z.min_id, Z.sub_diag. reflexivity.
Qed.

(** Dividing by a zero of either sign never yields a finite number: the
    quotient is an infinity, or NaN when the dividend is a zero or NaN. *)
Lemma div_zero_not_finite (d z : float) :
  (z =? 0) = true -> is_finite (d / z) = false.
Proof.
  rewrite FloatAxioms.eqb_spec. change (Prim2SF 0) with (S754_zero false).
  intros Hz.
  unfold is_finite, is_nan, is_infinity.
  rewrite !FloatAxioms.eqb_spec, abs_spec, div_spec.
  change (Prim2SF infinity) with (S754_infinity false).
  destruct (Prim2SF z) as [sz|sz| |sz mz ez]; cbn in Hz; try discriminate;
    try (destruct sz; discriminate).
  destruct (Prim2SF d) as [sd|sd| |sd md ed]; try reflexivity;
    destruct sd, sz; reflexivity.
Qed.

Lemma clientX_sub_diag (c : PointerEvent) : clientX c - clientX c = 0.
Proof. apply sub_diag_finite, clientX_finite. Qed.

Lemma clientY_sub_diag (c : PointerEvent) : clientY c - clientY c = 0.
Proof. apply sub_diag_finite, clientY_finite. Qed.

(** Two contacts at one position are at distance [+0]. *)
Lemma distance_same_position (a b : PointerEvent) :
  clientX a = clientX b -> clientY a = clientY b -> distance a b = 0.
Proof.
  intros Hx Hy. unfold distance.
  rewrite Hx, Hy, clientX_sub_diag, clientY_sub_diag. reflexivity.
Qed.

End FloatFacts.

(** ** What the two loops leave in the cache *)

Lemma first_index_cons (event c : PointerEvent) (l : list PointerEvent) :
  first_index event (c :: l) =
    if decide (pointerId c = pointerId event) then Some 0
    else S <$> first_index event l.
Proof.
  unfold first_index. cbn [list_find].
  destruct (decide (pointerId c = pointerId event)); [reflexivity|].
  destruct (list_find _ l) as [[i d]|]; reflexivity.
Qed.

Lemma replaced_nil (event : PointerEvent) : replaced event [] = [].
Proof. reflexivity. Qed.

Lemma replaced_cons (event c : PointerEvent) (l : list PointerEvent) :
  replaced event (c :: l) =
    if decide (pointerId c = pointerId event) then event :: l
    else c :: replaced event l.
Proof.
  unfold replaced. rewrite first_index_cons.
  destruct (decide (pointerId c = pointerId event)); [reflexivity|].
  destruct (first_index event l); reflexivity.
Qed.

Lemma removed_nil (event : PointerEvent) : removed event [] = [].
Proof. reflexivity. Qed.

Lemma removed_cons (event c : PointerEvent) (l : list PointerEvent) :
  removed event (c :: l) =
    if decide (pointerId c = pointerId event) then l
    else c :: removed event l.
Proof.
  unfold removed. rewrite first_index_cons.
  destruct (decide (pointerId c = pointerId event)); [reflexivity|].
  destruct (first_index event l); reflexivity.
Qed.

Lemma length_replaced (event : PointerEvent) (l : list PointerEvent) :
  length (replaced event l) = length l.
Proof.
  unfold replaced. destruct (first_index event l); [apply length_insert|reflexivity].
Qed.

Lemma ids_replaced (event : PointerEvent) (l : list PointerEvent) :
  ids (replaced event l) = ids l.
Proof.
  induction l as [|c l IH]; [reflexivity|].
  rewrite replaced_cons.
  destruct (decide (pointerId c = pointerId event)) as [E|E]; unfold ids in *; cbn.
  - now rewrite E.
  - now rewrite IH.
Qed.

Lemma unmatched_first_index (event : PointerEvent) (s : GestureDecoder) :
  unmatched event s <-> first_index event (cache s) = None.
Proof.
  unfold unmatched, first_index. rewrite fmap_None, list_find_None, Forall_forall.
  reflexivity.
Qed.

Lemma replaced_unmatched (event : PointerEvent) (s : GestureDecoder) :
  unmatched event s -> replaced event (cache s) = cache s.
Proof. intros H%unmatched_first_index. unfold replaced. now rewrite H. Qed.

Lemma removed_unmatched (event : PointerEvent) (s : GestureDecoder) :
  unmatched event s -> removed event (cache s) = cache s.
Proof. intros H%unmatched_first_index. unfold removed. now rewrite H. Qed.

Lemma filter_all {A} (P : A -> Prop) `{forall a, Decision (P a)} (l : list A) :
  (forall a, a ∈ l -> P a) -> filter P l = l.
Proof.
  induction l as [|a l IH]; intros Hall; [reflexivity|].
  rewrite filter_cons_True by (apply Hall; left).
  f_equal. apply IH. intros b Hb. apply Hall. now right.
Qed.

(** With distinct identities in the cache, removing the first contact of an
    identity removes every contact of that identity. *)
Lemma ids_removed_NoDup (event : PointerEvent) (l : list PointerEvent) :
  NoDup (ids l) ->
  ids (removed event l) = filter (fun i => i <> pointerId event) (ids l).
Proof.
  unfold ids. induction l as [|c l IH]; intros Hnd; [reflexivity|].
  rewrite removed_cons. cbn [fmap list_fmap] in *.
  apply NoDup_cons in Hnd as [Hc Hl].
  destruct (decide (pointerId c = pointerId event)) as [E|E].
  - rewrite filter_cons_False by (intros ?; congruence).
    symmetry. apply filter_all. intros i Hi ->. now rewrite E in Hc.
  - rewrite filter_cons_True by assumption.
    cbn [fmap list_fmap]. now rewrite IH.
Qed.

Lemma ids_removed_sublist (event : PointerEvent) (l : list PointerEvent) :
  ids (removed event l) `sublist_of` ids l.
Proof.
  unfold ids. induction l as [|c l IH]; [constructor|].
  rewrite removed_cons. cbn [fmap list_fmap].
  destruct (decide (pointerId c = pointerId event)).
  - now apply sublist_cons.
  - now apply sublist_skip.
Qed.

(** ** Evaluating the methods *)

Lemma set_cache_same (s : GestureDecoder) : set_cache (cache s) s = s.
Proof. now destruct s. Qed.

Lemma update_loop_eval (event : PointerEvent) (s : GestureDecoder) :
  update_loop event s = Ok tt (set_cache (replaced event (cache s)) s) [].
Proof.
  unfold update_loop, replaced, bind, this.
  destruct (first_index event (cache s)); [reflexivity|].
  now rewrite set_cache_same.
Qed.

Lemma remove_loop_eval (event : PointerEvent) (s : GestureDecoder) :
  remove_loop event s = Ok tt (set_cache (removed event (cache s)) s) [].
Proof.
  unfold remove_loop, removed, bind, this.
  destruct (first_index event (cache s)); [reflexivity|].
  now rewrite set_cache_same.
Qed.

Lemma startDrag_eval (s : GestureDecoder) (c : PointerEvent) (rest : list PointerEvent) :
  cache s = c :: rest ->
  startDrag s =
    Ok tt (drag_started c s)
       (dispatch (dragStartHandler s) (Dragstart zero_displacement)).
Proof.
  intros Hc. destruct s as [l ax ay d h1 h2 h3 h4 h5 h6]. cbn in Hc. subst l.
  destruct h1; cbn; [|reflexivity].
  now rewrite clientX_sub_diag, clientY_sub_diag.
Qed.

Lemma updateDrag_eval (s : GestureDecoder) (c : PointerEvent) (rest : list PointerEvent) :
  cache s = c :: rest ->
  updateDrag s =
    Ok tt s (dispatch (dragUpdateHandler s) (Dragupdate (displacement c s))).
Proof.
  intros Hc. destruct s as [l ax ay d h1 h2 h3 h4 h5 h6]. cbn in Hc. subst l.
  destruct h2; reflexivity.
Qed.

Lemma stopDrag_eval (s : GestureDecoder) (c : PointerEvent) (rest : list PointerEvent) :
  cache s = c :: rest ->
  stopDrag s =
    Ok tt s (dispatch (dragStopHandler s) (Dragstop (displacement c s))).
Proof.
  intros Hc. destruct s as [l ax ay d h1 h2 h3 h4 h5 h6]. cbn in Hc. subst l.
  destruct h3; reflexivity.
Qed.

Lemma startZoom_eval (s : GestureDecoder) (a b : PointerEvent) (rest : list PointerEvent) :
  cache s = a :: b :: rest ->
  startZoom s =
    Ok tt (set_delta (distance a b) s)
       (dispatch (zoomStartHandler s) (Zoomstart (zoom_start_event a b))).
Proof.
  intros Hc. destruct s as [l ax ay d h1 h2 h3 h4 h5 h6]. cbn in Hc. subst l.
  destruct h4; reflexivity.
Qed.

Lemma updateZoom_eval (s : GestureDecoder) (a b : PointerEvent) (rest : list PointerEvent) :
  cache s = a :: b :: rest ->
  updateZoom s =
    Ok tt s (dispatch (zoomUpdateHandler s) (Zoomupdate (zoom_event a b (delta s)))).
Proof.
  intros Hc. destruct s as [l ax ay d h1 h2 h3 h4 h5 h6]. cbn in Hc. subst l.
  destruct h5; reflexivity.
Qed.

Lemma stopZoom_eval (s : GestureDecoder) (a b : PointerEvent) (rest : list PointerEvent) :
  cache s = a :: b :: rest ->
  stopZoom s =
    Ok tt s (dispatch (zoomStopHandler s) (Zoomstop (zoom_event a b (delta s)))).
Proof.
  intros Hc. destruct s as [l ax ay d h1 h2 h3 h4 h5 h6]. cbn in Hc. subst l.
  destruct h6; reflexivity.
Qed.

(** ** The transitions, one notification at a time

    The state and the trace that each entry point produces, by the size of
    the cache.  The entry points never throw: every method that reads
    [cache[0]] or [cache[1]] is called on a cache that is long enough. *)

Lemma handlePointerDown_eval (event : PointerEvent) (s : GestureDecoder) :
  handlePointerDown event s =
    Ok tt (fst (down_result event s)) (snd (down_result event s)).
Proof.
  unfold handlePointerDown, down_result, bind, assign, this.
  destruct (cache s) as [|a [|b [|c rest]]] eqn:Hc;
    cbn [app length fst snd cache set_cache].
  - erewrite startDrag_eval by reflexivity. reflexivity.
  - erewrite stopDrag_eval by reflexivity.
    erewrite startZoom_eval by reflexivity. reflexivity.
  - erewrite stopZoom_eval by reflexivity. reflexivity.
  - rewrite length_app. cbn [length].
    replace (length rest + 1) with (S (length rest)) by lia. reflexivity.
Qed.

Lemma handlePointerMove_eval (event : PointerEvent) (s : GestureDecoder) :
  handlePointerMove event s =
    Ok tt (fst (move_result event s)) (snd (move_result event s)).
Proof.
  unfold handlePointerMove, move_result, bind, this.
  rewrite update_loop_eval. cbn [cache set_cache].
  destruct (replaced event (cache s)) as [|a [|b [|c rest]]] eqn:Hc;
    cbn [app length fst snd]; try reflexivity.
  - erewrite updateDrag_eval by reflexivity. reflexivity.
  - erewrite updateZoom_eval by reflexivity. reflexivity.
Qed.

Lemma removed_pair_nonempty (event a b : PointerEvent) :
  removed event [a; b] <> [].
Proof.
  rewrite !removed_cons, removed_nil. repeat case_decide; discriminate.
Qed.

Lemma handlePointerUp_eval (event : PointerEvent) (s : GestureDecoder) :
  handlePointerUp event s =
    Ok tt (fst (up_result event s)) (snd (up_result event s)).
Proof.
  unfold handlePointerUp, up_result, bind, this, ret.
  destruct (cache s) as [|a [|b [|c [|d rest]]]] eqn:Hc; cbn [length fst snd].
  - rewrite remove_loop_eval, Hc. reflexivity.
  - erewrite stopDrag_eval by eassumption.
    rewrite remove_loop_eval, Hc. cbn. now rewrite ?app_nil_r.
  - erewrite stopZoom_eval by eassumption.
    rewrite remove_loop_eval, Hc.
    destruct (removed event [a; b]) as [|r l'] eqn:Hr;
      [now apply removed_pair_nonempty in Hr|].
    erewrite startDrag_eval by reflexivity. cbn. now rewrite ?app_nil_r.
  - erewrite startZoom_eval by eassumption.
    rewrite remove_loop_eval. cbn [cache set_delta]. rewrite Hc.
    cbn. now rewrite ?app_nil_r.
  - rewrite remove_loop_eval, Hc. reflexivity.
Qed.

Lemma handle_eval (n : Notification) (s : GestureDecoder) :
  handle n s = Ok tt (fst (result n s)) (snd (result n s)).
Proof.
  destruct n; cbn [handle result];
    [apply handlePointerDown_eval|apply handlePointerMove_eval
    |apply handlePointerUp_eval].
Qed.

(** No sequence of notifications makes the decoder throw. *)
Lemma run_eval (ns : list Notification) (s : GestureDecoder) :
  run ns s = Ok tt (fst (run_result ns s)) (snd (run_result ns s)).
Proof.
  revert s. induction ns as [|n ns IH]; intros s; [reflexivity|].
  cbn [run run_result]. unfold bind. rewrite handle_eval, IH. reflexivity.
Qed.

(** *** The cache after a notification *)

Lemma cache_result (n : Notification) (s : GestureDecoder) :
  cache (fst (result n s)) = cache_after n (cache s).
Proof.
  destruct n as [event|event|event]; cbn [result cache_after].
  - unfold down_result. destruct (cache s) as [|a [|b [|c rest]]]; reflexivity.
  - unfold move_result. cbn [cache set_cache].
    destruct (replaced event (cache s)) as [|a [|b [|c rest]]]; reflexivity.
  - unfold up_result.
    destruct (cache s) as [|a [|b [|c [|d rest]]]]; try reflexivity.
    destruct (removed event [a; b]); reflexivity.
Qed.

(** *** The handlers are never touched by a notification *)

Lemma same_handlers_refl (s : GestureDecoder) : same_handlers s s.
Proof. repeat split. Qed.

Lemma same_handlers_result (n : Notification) (s : GestureDecoder) :
  same_handlers s (fst (result n s)).
Proof.
  destruct n as [event|event|event]; cbn [result].
  - unfold down_result.
    destruct (cache s) as [|a [|b [|c rest]]]; repeat split.
  - unfold move_result. cbn [cache set_cache].
    destruct (replaced event (cache s)) as [|a [|b [|c rest]]]; repeat split.
  - unfold up_result.
    destruct (cache s) as [|a [|b [|c [|d rest]]]]; try (repeat split).
    all: destruct (removed event [a; b]); reflexivity.
Qed.

Lemma no_handlers_same (s s' : GestureDecoder) :
  same_handlers s s' -> no_handlers s -> no_handlers s'.
Proof.
  unfold same_handlers, no_handlers.
  intros (-> & -> & -> & -> & -> & ->). tauto.
Qed.

Lemma no_handlers_silent (n : Notification) (s : GestureDecoder) :
  no_handlers s -> snd (result n s) = [].
Proof.
  intros (H1 & H2 & H3 & H4 & H5 & H6).
  destruct n as [event|event|event]; cbn [result].
  - unfold down_result.
    destruct (cache s) as [|a [|b [|c rest]]]; cbn [snd];
      rewrite ?H1, ?H3, ?H4, ?H6; reflexivity.
  - unfold move_result. cbn [cache set_cache].
    destruct (replaced event (cache s)) as [|a [|b [|c rest]]]; cbn [snd];
      rewrite ?H2, ?H5; reflexivity.
  - unfold up_result.
    destruct (cache s) as [|a [|b [|c [|d rest]]]]; cbn [snd];
      rewrite ?H1, ?H3, ?H4, ?H6; reflexivity.
Qed.

(** * The claims *)

(** Registering a handler of every kind on a new decoder. *)
Lemma listening_registered :
  (on dragstart 0;; on dragupdate 1;; on dragstop 2;;
   on zoomstart 3;; on zoomupdate 4;; on zoomstop 5) new_GestureDecoder
  = Ok tt listening [].
Proof. reflexivity. Qed.

(** ** C9: no handler, no error, no observable effect *)

(** C9.  A sequence of contact-added, -updated and -removed notifications
    processed by a decoder with no registered handler completes without
    raising, calls nothing, and leaves a decoder that still has no handler.
    No sequence raises, in fact, whatever the handlers: a read of [cache[0]]
    or [cache[1]] out of range would be a [Throw], and every run returns
    [Ok]. *)
Theorem no_handler_run_is_silent (ns : list Notification) (s : GestureDecoder) :
  (exists s' out, run ns s = Ok tt s' out)
  /\ (no_handlers s -> exists s', run ns s = Ok tt s' [] /\ no_handlers s').
Proof.
  split; [rewrite run_eval; eauto|].
  revert s. induction ns as [|n ns IH]; intros s Hs.
  - exists s. split; [reflexivity|assumption].
  - cbn [run]. unfold bind. rewrite handle_eval.
    rewrite (no_handlers_silent n s Hs).
    destruct (IH (fst (result n s))) as (s' & Hrun & Hs').
    { eapply no_handlers_same; [apply same_handlers_result|assumption]. }
    exists s'. rewrite Hrun. split; [reflexivity|assumption].
Qed.

Lemma no_handler_run_is_silent_witness :
  no_handlers new_GestureDecoder /\
  (exists s' out, run session listening = Ok tt s' out) /\
  exists s',
    run [PointerDown contactA; PointerDown contactB; PointerMove contactB';
         PointerDown contactC; PointerUp stranger; PointerUp contactA;
         PointerUp contactB; PointerUp contactC; PointerUp contactC]
      new_GestureDecoder = Ok tt s' [] /\ no_handlers s'.
Proof.
  assert (H : no_handlers new_GestureDecoder) by (repeat split).
  split; [exact H|]. split.
  - exact (proj1 (no_handler_run_is_silent session listening)).
  - exact (proj2 (no_handler_run_is_silent _ new_GestureDecoder) H).
Defined.

(** ** C7: updates are silent while frozen or idle *)

(** C7.  While the cache holds three or more contacts, or none, a
    contact-updated notification calls no handler.  It does not fail either;
    it only overwrites the matching contact, if any, in place. *)
Theorem frozen_or_idle_update_is_silent (event : PointerEvent) (s : GestureDecoder) :
  length (cache s) = 0 \/ 3 <= length (cache s) ->
  handlePointerMove event s
  = Ok tt (set_cache (replaced event (cache s)) s) [].
Proof.
  intros Hlen. rewrite handlePointerMove_eval. unfold move_result.
  cbn [cache set_cache].
  pose proof (length_replaced event (cache s)) as Hr.
  destruct (replaced event (cache s)) as [|a [|b [|c rest]]];
    cbn [length] in Hr; try reflexivity; lia.
Qed.

Lemma frozen_reached :
  exists out,
    run [PointerDown contactA; PointerDown contactB; PointerDown contactC]
      listening = Ok tt frozen out.
Proof. eexists. vm_compute. reflexivity. Qed.

Lemma frozen_or_idle_update_is_silent_witness :
  (length (cache frozen) = 0 \/ 3 <= length (cache frozen)) /\
  handlePointerMove contactB' frozen
  = Ok tt (set_cache [contactA; contactB'; contactC] frozen) [].
Proof.
  assert (H : length (cache frozen) = 0 \/ 3 <= length (cache frozen))
    by (right; cbn; lia).
  split; [exact H|].
  exact (frozen_or_idle_update_is_silent contactB' frozen H).
Defined.

(** ** C3: release from three contacts re-anchors the zoom *)

(** C3.  A contact-removed notification that arrives while exactly three
    contacts are cached fires zoomstart, computed from the contacts at
    indices 0 and 1 of the cache as it is before the removal: the zoom anchor
    becomes their distance, the event carries their midpoint and scale 1.
    This does not depend on the departing contact (nor on whether the
    notification matches a contact at all).  Firing calls the zoomstart
    handler when one is registered. *)
Theorem release_from_three_restarts_zoom
    (event a b c : PointerEvent) (s : GestureDecoder) :
  cache s = [a; b; c] ->
  exists s',
    handlePointerUp event s
    = Ok tt s'
        (dispatch (zoomStartHandler s)
           (Zoomstart
              (ZoomEvent.mk (fst (midpoint a b)) (snd (midpoint a b)) 1)))
    /\ delta s' = distance a b
    /\ cache s' = removed event [a; b; c]
    /\ x s' = x s /\ y s' = y s.
Proof.
  intros Hc. rewrite handlePointerUp_eval. unfold up_result. rewrite Hc.
  eexists. split; [reflexivity|]. cbn. repeat split.
Qed.

(** The departing contact is the one at index 0: the anchor is still the
    distance between the contacts that were at indices 0 and 1. *)
Lemma release_from_three_restarts_zoom_witness :
  cache frozen = [contactA; contactB; contactC] /\
  exists s',
    handlePointerUp contactA frozen
    = Ok tt s' [Zoomstart (ZoomEvent.mk 5 0 1)]
    /\ delta s' = 10%float
    /\ cache s' = [contactB; contactC]
    /\ x s' = x frozen /\ y s' = y frozen.
Proof.
  split; [reflexivity|].
  exact (release_from_three_restarts_zoom contactA contactA contactB contactC
           frozen eq_refl).
Defined.

(** ** C4: release from two contacts stops the zoom and restarts the drag *)

(** C4.  A contact-removed notification that arrives while exactly two
    contacts are cached first fires zoomstop, computed from the positions the
    two contacts have before the removal, then removes the contact, then
    fires dragstart with displacement (0, 0); the drag anchor is the
    position of the contact at index 0 of the cache after the removal, which
    is the remaining contact. *)
Theorem release_from_two_stops_zoom_then_starts_drag
    (event a b : PointerEvent) (s : GestureDecoder) :
  cache s = [a; b] ->
  exists s' r,
    handlePointerUp event s
    = Ok tt s'
        (dispatch (zoomStopHandler s) (Zoomstop (zoom_event a b (delta s)))
         ++ dispatch (dragStartHandler s) (Dragstart (DragEvent.mk 0 0)))
    /\ cache s' = removed event [a; b]
    /\ cache s' !! 0 = Some r
    /\ anchored_at s' r
    /\ delta s' = delta s
    /\ (pointerId a = pointerId event -> cache s' = [b] /\ r = b)
    /\ (pointerId a <> pointerId event -> pointerId b = pointerId event ->
        cache s' = [a] /\ r = a).
Proof.
  intros Hc. rewrite handlePointerUp_eval. unfold up_result. rewrite Hc.
  destruct (removed event [a; b]) as [|r l'] eqn:Hr;
    [now apply removed_pair_nonempty in Hr|].
  exists (drag_started r (set_cache (r :: l') s)), r.
  split; [reflexivity|]. cbn [fst].
  rewrite !removed_cons, removed_nil in Hr.
  assert (Ha : pointerId a = pointerId event -> r :: l' = [b]).
  { intros E. rewrite decide_True in Hr by assumption. congruence. }
  assert (Hb : pointerId a <> pointerId event -> pointerId b = pointerId event ->
               r :: l' = [a]).
  { intros E1 E2. rewrite decide_False, decide_True in Hr by assumption.
    congruence. }
  split_and!; try reflexivity.
  - split; reflexivity.
  - intros E. specialize (Ha E). split; [exact Ha|congruence].
  - intros E1 E2. specialize (Hb E1 E2). split; [exact Hb|congruence].
Qed.

Lemma zooming_reached :
  exists out,
    run [PointerDown contactA; PointerDown contactB; PointerMove contactB']
      listening = Ok tt zooming out.
Proof. eexists. vm_compute. reflexivity. Qed.

Lemma release_from_two_stops_zoom_then_starts_drag_witness :
  cache zooming = [contactA; contactB'] /\
  pointerId contactA = pointerId contactA /\
  exists s',
    handlePointerUp contactA zooming
    = Ok tt s' [Zoomstop (ZoomEvent.mk 10 0 2); Dragstart (DragEvent.mk 0 0)]
    /\ cache s' = [contactB']
    /\ anchored_at s' contactB'
    /\ delta s' = delta zooming.
Proof.
  split; [reflexivity|]. split; [reflexivity|].
  destruct (release_from_two_stops_zoom_then_starts_drag contactA contactA
              contactB' zooming eq_refl)
    as (s' & r & Hup & _ & _ & Hanchor & Hdelta & Hfirst & _).
  destruct (Hfirst eq_refl) as [Hcache ->].
  exists s'. repeat split; try assumption; apply Hanchor.
Defined.

(** ** C5: a drag starts at its own anchor *)

Lemma elem_of_dispatch {H} (h : option H) (e e' : Emitted) :
  e' ∈ dispatch h e -> e' = e.
Proof.
  destruct h; cbn; [now intros ?%list_elem_of_singleton|].
  intros ?%elem_of_nil. contradiction.
Qed.

(** Splits a membership in a trace down to the single events. *)
Ltac trace_cases H :=
  repeat match type of H with
  | _ ∈ _ ++ _ => apply elem_of_app in H as [H|H]
  | _ ∈ dispatch _ _ => apply elem_of_dispatch in H
  | _ ∈ [] => apply elem_of_nil in H; contradiction
  end.

(** C5.  Whenever drag starts, the drag anchor is set to the current position
    of [cache[0]] and the dragstart event carries displacement exactly
    (0, 0).  This is so for [startDrag] itself, for the notification that
    brings the cache to size 1, and for every dragstart fired while a
    notification is handled (the restart after a zoom included): the anchor
    is then the position of [cache[0]] in the decoder the notification
    leaves. *)
Theorem drag_starts_at_its_anchor :
  (forall (s : GestureDecoder) (c : PointerEvent) (rest : list PointerEvent),
      cache s = c :: rest ->
      exists s',
        startDrag s
        = Ok tt s' (dispatch (dragStartHandler s) (Dragstart (DragEvent.mk 0 0)))
        /\ anchored_at s' c /\ cache s' = cache s /\ delta s' = delta s)
  /\ (forall (event : PointerEvent) (s : GestureDecoder),
      cache s = [] ->
      exists s',
        handlePointerDown event s
        = Ok tt s' (dispatch (dragStartHandler s) (Dragstart (DragEvent.mk 0 0)))
        /\ cache s' = [event] /\ anchored_at s' event)
  /\ (forall (n : Notification) (s s' : GestureDecoder) (out : list Emitted)
             (e : DragEvent.t),
      handle n s = Ok tt s' out ->
      Dragstart e ∈ out ->
      e = DragEvent.mk 0 0
      /\ exists c, cache s' !! 0 = Some c /\ anchored_at s' c).
Proof.
  split_and!.
  - intros s c rest Hc. rewrite (startDrag_eval s c rest Hc).
    eexists. split; [reflexivity|]. now split_and!.
  - intros event s Hc. rewrite handlePointerDown_eval. unfold down_result.
    rewrite Hc. eexists. split; [reflexivity|]. now split_and!.
  - intros n s s' out e Hrun Hin. rewrite handle_eval in Hrun.
    injection Hrun as <- <-.
    destruct n as [event|event|event]; cbn [result] in *.
    + unfold down_result in *.
      destruct (cache s) as [|a [|b [|c rest]]]; cbn [fst snd] in *;
        trace_cases Hin; try discriminate.
      injection Hin as ->. split; [reflexivity|].
      exists event. now split_and!.
    + unfold move_result in *. cbn [cache set_cache] in *.
      destruct (replaced event (cache s)) as [|a [|b [|c rest]]];
        cbn [fst snd] in *; trace_cases Hin; discriminate.
    + unfold up_result in *.
      destruct (cache s) as [|a [|b [|c [|d rest]]]]; cbn [fst snd] in *;
        trace_cases Hin; try discriminate.
      injection Hin as ->. split; [reflexivity|].
      destruct (removed event [a; b]) as [|r l'] eqn:Hr;
        [now apply removed_pair_nonempty in Hr|].
      exists r. now split_and!.
Qed.

Lemma dragging_reached :
  exists out,
    run [PointerDown (pt 1 10 10); PointerMove (pt 1 15 12)] listening
    = Ok tt dragging out.
Proof. eexists. vm_compute. reflexivity. Qed.

Lemma drag_starts_at_its_anchor_witness :
  cache dragging = [pt 1 15 12] /\
  cache listening = [] /\
  (exists s',
      startDrag dragging = Ok tt s' [Dragstart (DragEvent.mk 0 0)]
      /\ anchored_at s' (pt 1 15 12)
      /\ cache s' = cache dragging /\ delta s' = delta dragging) /\
  (exists s',
      handlePointerDown contactC listening
      = Ok tt s' [Dragstart (DragEvent.mk 0 0)]
      /\ cache s' = [contactC] /\ anchored_at s' contactC) /\
  (exists s' out,
      handle (PointerUp contactA) zooming = Ok tt s' out
      /\ Dragstart (DragEvent.mk 0 0) ∈ out
      /\ cache s' !! 0 = Some contactB' /\ anchored_at s' contactB').
Proof.
  destruct drag_starts_at_its_anchor as (Hstart & Hdown & Hany).
  split; [reflexivity|]. split; [reflexivity|]. split_and!.
  - exact (Hstart dragging (pt 1 15 12) [] eq_refl).
  - exact (Hdown contactC listening eq_refl).
  - eexists _, _. split; [reflexivity|].
    assert (Hin : Dragstart (DragEvent.mk 0 0)
                  ∈ [Zoomstop (ZoomEvent.mk 10 0 2);
                     Dragstart (DragEvent.mk 0 0)])
      by (right; left).
    split; [exact Hin|].
    destruct (Hany (PointerUp contactA) zooming _ _ _ eq_refl Hin)
      as (_ & c & Hc & Hanchor).
    injection Hc as <-. split; [reflexivity|exact Hanchor].
Defined.

(** ** C6: the payload of zoomupdate and zoomstop *)

(** C6.  Every zoomupdate and every zoomstop carries the midpoint of
    [cache[0]] and [cache[1]] as they are when the event fires, and as scale
    their Euclidean distance at that time divided by the zoom anchor, which
    is the distance recorded by the last [startZoom].  This is so for
    [updateZoom] and [stopZoom] themselves, after a [startZoom] whatever the
    contacts have become since, and for every zoomupdate and zoomstop fired
    while a notification is handled: a zoomupdate is computed from the cache
    the update leaves, a zoomstop from the two contacts cached when the
    notification arrives (they are still at indices 0 and 1 when it
    fires). *)
Theorem zoom_payload_is_midpoint_and_relative_distance :
  (forall (s : GestureDecoder) (a b : PointerEvent) (rest : list PointerEvent),
      cache s = a :: b :: rest ->
      let e := ZoomEvent.mk (fst (midpoint a b)) (snd (midpoint a b))
                 (distance a b / delta s)%float in
      updateZoom s = Ok tt s (dispatch (zoomUpdateHandler s) (Zoomupdate e))
      /\ stopZoom s = Ok tt s (dispatch (zoomStopHandler s) (Zoomstop e)))
  /\ (forall (s : GestureDecoder) (a0 b0 a b : PointerEvent)
             (rest0 rest : list PointerEvent),
      cache s = a0 :: b0 :: rest0 ->
      exists s1 out,
        startZoom s = Ok tt s1 out
        /\ delta s1 = distance a0 b0
        /\ let s2 := set_cache (a :: b :: rest) s1 in
           let e := ZoomEvent.mk (fst (midpoint a b)) (snd (midpoint a b))
                      (distance a b / distance a0 b0)%float in
           updateZoom s2 = Ok tt s2 (dispatch (zoomUpdateHandler s) (Zoomupdate e))
           /\ stopZoom s2 = Ok tt s2 (dispatch (zoomStopHandler s) (Zoomstop e)))
  /\ (forall (n : Notification) (s s' : GestureDecoder) (out : list Emitted)
             (e : ZoomEvent.t),
      handle n s = Ok tt s' out ->
      (Zoomupdate e ∈ out ->
       exists a b, cache s' = [a; b] /\ delta s' = delta s
                   /\ e = zoom_event a b (delta s))
      /\ (Zoomstop e ∈ out ->
          exists a b, cache s = [a; b] /\ e = zoom_event a b (delta s))).
Proof.
  split_and!.
  - intros s a b rest Hc e. split.
    + apply (updateZoom_eval s a b rest Hc).
    + apply (stopZoom_eval s a b rest Hc).
  - intros s a0 b0 a b rest0 rest Hc.
    rewrite (startZoom_eval s a0 b0 rest0 Hc).
    eexists _, _. split; [reflexivity|]. split; [reflexivity|].
    cbv zeta. split.
    + erewrite updateZoom_eval by reflexivity. reflexivity.
    + erewrite stopZoom_eval by reflexivity. reflexivity.
  - intros n s s' out e Hrun. rewrite handle_eval in Hrun.
    injection Hrun as <- <-.
    destruct n as [event|event|event]; cbn [result] in *.
    + unfold down_result.
      destruct (cache s) as [|a [|b [|c rest]]]; cbn [fst snd];
        split; intros Hin; trace_cases Hin; try discriminate.
      injection Hin as ->. now exists a, b.
    + unfold move_result. cbn [cache set_cache].
      destruct (replaced event (cache s)) as [|a [|b [|c rest]]];
        cbn [fst snd]; split; intros Hin; trace_cases Hin; try discriminate.
      injection Hin as ->. now exists a, b.
    + unfold up_result.
      destruct (cache s) as [|a [|b [|c [|d rest]]]]; cbn [fst snd];
        split; intros Hin; trace_cases Hin; try discriminate.
      injection Hin as ->. now exists a, b.
Qed.

Lemma zoom_payload_is_midpoint_and_relative_distance_witness :
  cache zooming = [contactA; contactB'] /\
  cache coincident = [pt 1 5 5; pt 2 5 5] /\
  (updateZoom zooming = Ok tt zooming [Zoomupdate (ZoomEvent.mk 10 0 2)]
   /\ stopZoom zooming = Ok tt zooming [Zoomstop (ZoomEvent.mk 10 0 2)]) /\
  (exists s1 out,
      startZoom zooming = Ok tt s1 out
      /\ delta s1 = 20%float
      /\ updateZoom (set_cache [contactA; contactB] s1)
         = Ok tt (set_cache [contactA; contactB] s1)
             [Zoomupdate (ZoomEvent.mk 5 0 0.5)]
      /\ stopZoom (set_cache [contactA; contactB] s1)
         = Ok tt (set_cache [contactA; contactB] s1)
             [Zoomstop (ZoomEvent.mk 5 0 0.5)]) /\
  (exists s' out a b,
      handle (PointerMove contactB) zooming = Ok tt s' out
      /\ Zoomupdate (ZoomEvent.mk 5 0 1) ∈ out
      /\ cache s' = [a; b] /\ delta s' = delta zooming
      /\ ZoomEvent.mk 5 0 1 = zoom_event a b (delta zooming)).
Proof.
  destruct zoom_payload_is_midpoint_and_relative_distance
    as (Hops & Hanchor & Hany).
  split; [reflexivity|]. split; [reflexivity|]. split; [|split].
  - exact (Hops zooming contactA contactB' [] eq_refl).
  - exact (Hanchor zooming contactA contactB' contactA contactB [] [] eq_refl).
  - assert (Hin : Zoomupdate (ZoomEvent.mk 5 0 1)
                  ∈ [Zoomupdate (ZoomEvent.mk 5 0 1)]) by left.
    destruct (Hany (PointerMove contactB) zooming _ _ (ZoomEvent.mk 5 0 1)
                eq_refl) as [Hupd _].
    destruct (Hupd Hin) as (a & b & Hc & Hd & He).
    eexists _, _, a, b. split; [reflexivity|]. now split_and!.
Defined.

(** ** C8: a zero zoom anchor is not guarded *)

(** C8.  When the zoom anchor is zero, [updateZoom] and [stopZoom] take no
    special branch and raise nothing: they fire the usual payload, whose
    scale, the current distance divided by zero, is not a finite number.
    The anchor is zero when zoom starts on two contacts at one position. *)
Theorem zero_anchor_gives_non_finite_scale :
  (forall (s : GestureDecoder) (a b : PointerEvent) (rest : list PointerEvent),
      cache s = a :: b :: rest ->
      (delta s =? 0)%float = true ->
      let e := zoom_event a b (delta s) in
      updateZoom s = Ok tt s (dispatch (zoomUpdateHandler s) (Zoomupdate e))
      /\ stopZoom s = Ok tt s (dispatch (zoomStopHandler s) (Zoomstop e))
      /\ ZoomEvent.scale e = (distance a b / delta s)%float
      /\ is_finite (ZoomEvent.scale e) = false)
  /\ (forall (s : GestureDecoder) (a b : PointerEvent) (rest : list PointerEvent),
      cache s = a :: b :: rest ->
      clientX a = clientX b -> clientY a = clientY b ->
      exists s' out, startZoom s = Ok tt s' out /\ delta s' = 0%float).
Proof.
  split.
  - intros s a b rest Hc Hz e. split_and!.
    + apply (updateZoom_eval s a b rest Hc).
    + apply (stopZoom_eval s a b rest Hc).
    + reflexivity.
    + apply div_zero_not_finite, Hz.
  - intros s a b rest Hc Hx Hy. rewrite (startZoom_eval s a b rest Hc).
    eexists _, _. split; [reflexivity|]. now apply distance_same_position.
Qed.

Lemma degenerate_reached :
  exists out,
    run [PointerDown (pt 1 5 5); PointerDown (pt 2 5 5); PointerMove (pt 2 8 9)]
      listening = Ok tt degenerate out.
Proof. eexists. vm_compute. reflexivity. Qed.

Lemma zero_anchor_gives_non_finite_scale_witness :
  cache degenerate = [pt 1 5 5; pt 2 8 9] /\
  (delta degenerate =? 0)%float = true /\
  cache coincident = [pt 1 5 5; pt 2 5 5] /\
  (updateZoom degenerate
   = Ok tt degenerate [Zoomupdate (ZoomEvent.mk 6.5 7 infinity)]
   /\ stopZoom degenerate
      = Ok tt degenerate [Zoomstop (ZoomEvent.mk 6.5 7 infinity)]
   /\ ZoomEvent.scale (zoom_event (pt 1 5 5) (pt 2 8 9) (delta degenerate))
      = (distance (pt 1 5 5) (pt 2 8 9) / delta degenerate)%float
   /\ is_finite
        (ZoomEvent.scale (zoom_event (pt 1 5 5) (pt 2 8 9) (delta degenerate)))
      = false) /\
  (exists s' out, startZoom coincident = Ok tt s' out /\ delta s' = 0%float).
Proof.
  destruct zero_anchor_gives_non_finite_scale as (Hzero & Hsame).
  split; [reflexivity|]. split; [reflexivity|]. split; [reflexivity|]. split.
  - exact (Hzero degenerate (pt 1 5 5) (pt 2 8 9) [] eq_refl eq_refl).
  - exact (Hsame coincident (pt 1 5 5) (pt 2 5 5) [] eq_refl eq_refl eq_refl).
Defined.

(** ** C10: only the start operations write the anchors *)

(** C10.  The update and stop operations of both gestures leave the whole
    decoder (cache, both anchors, handlers) as it is; [startDrag] writes the
    drag anchor only and [startZoom] the zoom anchor only.  Each of them
    returns when the cache holds the contacts it reads. *)
Theorem anchors_written_by_start_only (s : GestureDecoder) :
  leaves (updateDrag s) (fun s' => s' = s)
  /\ leaves (stopDrag s) (fun s' => s' = s)
  /\ leaves (updateZoom s) (fun s' => s' = s)
  /\ leaves (stopZoom s) (fun s' => s' = s)
  /\ leaves (startDrag s) (fun s' =>
       cache s' = cache s /\ delta s' = delta s /\ same_handlers s s')
  /\ leaves (startZoom s) (fun s' =>
       cache s' = cache s /\ x s' = x s /\ y s' = y s /\ same_handlers s s')
  /\ (forall c rest, cache s = c :: rest ->
        (exists out, updateDrag s = Ok tt s out)
        /\ (exists out, stopDrag s = Ok tt s out)
        /\ (exists s' out, startDrag s = Ok tt s' out))
  /\ (forall a b rest, cache s = a :: b :: rest ->
        (exists out, updateZoom s = Ok tt s out)
        /\ (exists out, stopZoom s = Ok tt s out)
        /\ (exists s' out, startZoom s = Ok tt s' out)).
Proof.
  split_and!.
  - destruct (cache s) as [|c rest] eqn:Hc.
    + destruct s as [l ax ay d h1 h2 h3 h4 h5 h6]. cbn in Hc. subst l.
      destruct h2; exact I || reflexivity.
    + rewrite (updateDrag_eval s c rest Hc). reflexivity.
  - destruct (cache s) as [|c rest] eqn:Hc.
    + destruct s as [l ax ay d h1 h2 h3 h4 h5 h6]. cbn in Hc. subst l.
      destruct h3; exact I || reflexivity.
    + rewrite (stopDrag_eval s c rest Hc). reflexivity.
  - destruct (cache s) as [|a [|b rest]] eqn:Hc.
    3: rewrite (updateZoom_eval s a b rest Hc); reflexivity.
    all: destruct s as [l ax ay d h1 h2 h3 h4 h5 h6]; cbn in Hc; subst l;
      destruct h5; exact I || reflexivity.
  - destruct (cache s) as [|a [|b rest]] eqn:Hc.
    3: rewrite (stopZoom_eval s a b rest Hc); reflexivity.
    all: destruct s as [l ax ay d h1 h2 h3 h4 h5 h6]; cbn in Hc; subst l;
      destruct h6; exact I || reflexivity.
  - destruct (cache s) as [|c rest] eqn:Hc.
    + destruct s as [l ax ay d h1 h2 h3 h4 h5 h6]. cbn in Hc. subst l.
      exact I.
    + rewrite (startDrag_eval s c rest Hc). cbn. rewrite Hc.
      split_and!; try reflexivity. repeat split.
  - destruct (cache s) as [|a [|b rest]] eqn:Hc.
    3: { rewrite (startZoom_eval s a b rest Hc). cbn. rewrite Hc.
         split_and!; try reflexivity. repeat split. }
    all: destruct s as [l ax ay d h1 h2 h3 h4 h5 h6]; cbn in Hc; subst l;
      exact I.
  - intros c rest Hc. split_and!.
    + rewrite (updateDrag_eval s c rest Hc). eauto.
    + rewrite (stopDrag_eval s c rest Hc). eauto.
    + rewrite (startDrag_eval s c rest Hc). eauto.
  - intros a b rest Hc. split_and!.
    + rewrite (updateZoom_eval s a b rest Hc). eauto.
    + rewrite (stopZoom_eval s a b rest Hc). eauto.
    + rewrite (startZoom_eval s a b rest Hc). eauto.
Qed.

Lemma anchors_written_by_start_only_witness :
  cache zooming = [contactA; contactB'] /\
  (exists out, updateDrag zooming = Ok tt zooming out) /\
  (exists out, stopDrag zooming = Ok tt zooming out) /\
  (exists s' out, startDrag zooming = Ok tt s' out) /\
  (exists out, updateZoom zooming = Ok tt zooming out) /\
  (exists out, stopZoom zooming = Ok tt zooming out) /\
  (exists s' out, startZoom zooming = Ok tt s' out).
Proof.
  pose proof (anchors_written_by_start_only zooming)
    as (_ & _ & _ & _ & _ & _ & Hdrag & Hzoom).
  destruct (Hdrag contactA [contactB'] eq_refl) as (H1 & H2 & H3).
  destruct (Hzoom contactA contactB' [] eq_refl) as (H4 & H5 & H6).
  repeat split; assumption.
Defined.

(** ** C1: a notification that matches no cached contact *)

Lemma pinching_reached :
  exists out,
    run [PointerDown (pt 1 10 10); PointerDown (pt 2 20 10);
         PointerMove (pt 1 14 2)] listening = Ok tt pinching out.
Proof. eexists. vm_compute. reflexivity. Qed.

(** C1, as stated, fails: a removal and an update that match no cached
    contact still run the action chosen by the size of the cache.  With two
    contacts cached, the unmatched removal fires zoomstop and dragstart and
    moves the drag anchor, and the unmatched update fires zoomupdate. *)
Lemma unmatched_notification_is_not_silent :
  unmatched stranger pinching
  /\ handlePointerUp stranger pinching
     = Ok tt (drag_started (pt 1 14 2) pinching)
         [Zoomstop (ZoomEvent.mk 17 6 1); Dragstart (DragEvent.mk 0 0)]
  /\ x (drag_started (pt 1 14 2) pinching) <> x pinching
  /\ handlePointerUp stranger pinching <> Ok tt pinching []
  /\ handlePointerMove stranger pinching
     = Ok tt pinching [Zoomupdate (ZoomEvent.mk 17 6 1)]
  /\ handlePointerMove stranger pinching <> Ok tt pinching [].
Proof.
  split_and!.
  - apply unmatched_first_index. reflexivity.
  - vm_compute. reflexivity.
  - intros H. apply (f_equal (fun v => PrimFloat.eqb v 10)) in H.
    vm_compute in H. discriminate.
  - vm_compute. discriminate.
  - vm_compute. reflexivity.
  - vm_compute. discriminate.
Qed.

(** C1, amended.  A contact-updated or contact-removed notification whose
    identity matches no cached contact never fails and leaves the cache as
    it is, but the action chosen by the size of the cache still runs.  The
    update leaves the whole decoder unchanged and fires dragupdate at size 1
    and zoomupdate at size 2.  The removal fires dragstop at size 1; at size
    2 it fires zoomstop, re-anchors the drag on [cache[0]] and fires
    dragstart; at size 3 it re-anchors the zoom on [cache[0]] and [cache[1]]
    and fires zoomstart.  Either one is a complete no-op when the cache is
    empty or holds four contacts or more (three or more for the update). *)
Theorem unmatched_notification_runs_the_size_action
    (event : PointerEvent) (s : GestureDecoder) :
  unmatched event s ->
  handlePointerMove event s
  = Ok tt s
      match cache s with
      | [c] => dispatch (dragUpdateHandler s) (Dragupdate (displacement c s))
      | [a; b] =>
          dispatch (zoomUpdateHandler s) (Zoomupdate (zoom_event a b (delta s)))
      | _ => []
      end
  /\ handlePointerUp event s
     = match cache s with
       | [c] =>
           Ok tt s (dispatch (dragStopHandler s) (Dragstop (displacement c s)))
       | [a; b] =>
           Ok tt (drag_started a s)
             (dispatch (zoomStopHandler s) (Zoomstop (zoom_event a b (delta s)))
              ++ dispatch (dragStartHandler s) (Dragstart (DragEvent.mk 0 0)))
       | [a; b; c] =>
           Ok tt (set_delta (distance a b) s)
             (dispatch (zoomStartHandler s)
                (Zoomstart
                   (ZoomEvent.mk (fst (midpoint a b)) (snd (midpoint a b)) 1)))
       | _ => Ok tt s []
       end.
Proof.
  intros Hun. split.
  - rewrite handlePointerMove_eval. unfold move_result.
    rewrite (replaced_unmatched event s Hun), set_cache_same.
    destruct (cache s) as [|a [|b [|c rest]]]; reflexivity.
  - rewrite handlePointerUp_eval. unfold up_result.
    rewrite (removed_unmatched event s Hun). clear Hun.
    destruct s as [l ax ay d h1 h2 h3 h4 h5 h6]. cbn [cache].
    destruct l as [|a [|b [|c [|d' rest]]]]; reflexivity.
Qed.

Lemma unmatched_notification_runs_the_size_action_witness :
  unmatched stranger frozen /\
  handlePointerMove stranger frozen = Ok tt frozen [] /\
  handlePointerUp stranger frozen
  = Ok tt (set_delta 10 frozen) [Zoomstart (ZoomEvent.mk 5 0 1)].
Proof.
  assert (H : unmatched stranger frozen)
    by (apply unmatched_first_index; reflexivity).
  split; [exact H|].
  exact (unmatched_notification_runs_the_size_action stranger frozen H).
Defined.

(** ** C2: integrity of the cache *)

Lemma cache_run_result (ns : list Notification) (s : GestureDecoder) :
  cache (fst (run_result ns s)) = cache_run ns (cache s).
Proof.
  revert s. induction ns as [|n ns IH]; intros s; [reflexivity|].
  cbn [run_result fst cache_run foldl]. rewrite IH, cache_result. reflexivity.
Qed.

Lemma ids_app (l k : list PointerEvent) : ids (l ++ k) = ids l ++ ids k.
Proof. apply fmap_app. Qed.

Lemma cache_run_sublist (ns : list Notification) (l : list PointerEvent) :
  ids (cache_run ns l) `sublist_of` ids l ++ arrivals ns.
Proof.
  revert l. induction ns as [|[event|event|event] ns IH]; intros l;
    cbn [cache_run foldl cache_after arrivals].
  - now rewrite app_nil_r.
  - etrans; [apply IH|]. rewrite ids_app, <- app_assoc. reflexivity.
  - etrans; [apply IH|]. now rewrite ids_replaced.
  - etrans; [apply IH|].
    apply sublist_app; [apply ids_removed_sublist|reflexivity].
Qed.

Lemma cache_run_NoDup (ns : list Notification) (l : list PointerEvent) :
  NoDup (ids l) ->
  fresh_adds (ids l) ns = true ->
  NoDup (ids (cache_run ns l)) /\ ids (cache_run ns l) = active (ids l) ns.
Proof.
  revert l. induction ns as [|[event|event|event] ns IH]; intros l Hnd Hfresh;
    cbn [cache_run foldl cache_after active fresh_adds] in *.
  - now split.
  - apply andb_true_iff in Hfresh as [Hnew Hfresh].
    apply negb_true_iff, bool_decide_eq_false in Hnew.
    assert (E : ids (l ++ [event]) = ids l ++ [pointerId event])
      by apply ids_app.
    rewrite <- E in *. apply IH; [|assumption].
    rewrite E. apply NoDup_app. split_and!; [assumption| |].
    + intros i Hi Hi'. apply list_elem_of_singleton in Hi'. now subst.
    + apply NoDup_singleton.
  - rewrite <- (ids_replaced event l) in *. now apply IH.
  - rewrite <- (ids_removed_NoDup event l Hnd) in *. apply IH; [|assumption].
    eapply sublist_NoDup; [eassumption|apply ids_removed_sublist].
Qed.

(** C2, as stated, fails: the cache is pushed to without a look at the
    identities it holds, so two contact-added notifications under one
    identity leave two contacts with that identity. *)
Lemma duplicate_add_breaks_uniqueness :
  exists s',
    run [PointerDown (pt 1 0 0); PointerDown (pt 1 5 5)] new_GestureDecoder
    = Ok tt s' []
    /\ ids (cache s') = [1%Z; 1%Z]
    /\ ~ NoDup (ids (cache s')).
Proof.
  eexists. split; [vm_compute; reflexivity|]. split; [reflexivity|].
  cbn. intros H. apply NoDup_cons in H as [H _]. apply H. left.
Qed.

(** C2, amended.  Every sequence of notifications applied to a decoder with
    an empty cache completes, and the identities in the cache are a
    sub-sequence of the identities added, in arrival order.  When no contact
    is added under the identity of a contact that is active at that time,
    the cache never holds two contacts with one identity, and its order is
    the arrival order of the currently active contacts. *)
Theorem cache_integrity (ns : list Notification) (s : GestureDecoder) :
  cache s = [] ->
  exists s' out,
    run ns s = Ok tt s' out
    /\ ids (cache s') `sublist_of` arrivals ns
    /\ (fresh_adds [] ns = true ->
        NoDup (ids (cache s'))
        /\ ids (cache s') = active [] ns
        /\ active [] ns `sublist_of` arrivals ns).
Proof.
  intros Hc. rewrite run_eval. eexists _, _. split; [reflexivity|].
  rewrite cache_run_result, Hc.
  pose proof (cache_run_sublist ns []) as Hsub. cbn in Hsub.
  split; [exact Hsub|].
  intros Hfresh.
  destruct (cache_run_NoDup ns []) as [Hnd Hact];
    [apply NoDup_nil_2|exact Hfresh|].
  split_and!; [exact Hnd|exact Hact|]. cbn in Hact. now rewrite <- Hact.
Qed.

Lemma cache_integrity_witness :
  cache new_GestureDecoder = [] /\
  fresh_adds [] session = true /\
  exists s' out,
    run session new_GestureDecoder = Ok tt s' out
    /\ ids (cache s') `sublist_of` [1; 2; 3; 1]%Z
    /\ NoDup (ids (cache s'))
    /\ ids (cache s') = [2; 3; 1]%Z.
Proof.
  split; [reflexivity|]. split; [reflexivity|].
  destruct (cache_integrity session new_GestureDecoder eq_refl)
    as (s' & out & Hrun & Hsub & Hfresh).
  destruct (Hfresh eq_refl) as (Hnd & Hact & _).
  exists s', out. split_and!; [exact Hrun|exact Hsub|exact Hnd|exact Hact].
Defined.

(** * Further properties of the code *)

(** ** The transitions the entry points make, beyond the claims *)

(** X1.  [handlePointerDown] on a cache of one contact: the second contact
    stops the drag and starts the zoom.  dragstop carries the displacement
    of [cache[0]] from the drag anchor, zoomstart the midpoint of the two
    contacts and scale 1; the zoom anchor becomes their distance, and the
    drag anchor stays. *)
Theorem second_contact_stops_drag_and_starts_zoom
    (event a : PointerEvent) (s : GestureDecoder) :
  cache s = [a] ->
  handlePointerDown event s
  = Ok tt (set_delta (distance a event) (set_cache [a; event] s))
      (dispatch (dragStopHandler s) (Dragstop (displacement a s))
       ++ dispatch (zoomStartHandler s)
            (Zoomstart
               (ZoomEvent.mk (fst (midpoint a event)) (snd (midpoint a event)) 1))).
Proof.
  intros Hc. rewrite handlePointerDown_eval. unfold down_result.
  rewrite Hc. reflexivity.
Qed.

Lemma second_contact_stops_drag_and_starts_zoom_witness :
  cache dragging = [pt 1 15 12] /\
  handlePointerDown (pt 2 15 20) dragging
  = Ok tt (set_delta 8 (set_cache [pt 1 15 12; pt 2 15 20] dragging))
      [Dragstop (DragEvent.mk 5 2); Zoomstart (ZoomEvent.mk 15 16 1)].
Proof.
  split; [reflexivity|].
  exact (second_contact_stops_drag_and_starts_zoom (pt 2 15 20) (pt 1 15 12)
           dragging eq_refl).
Defined.

(** X2.  [handlePointerDown] on a cache of two contacts: the third contact
    stops the zoom, with the payload of the two contacts that were zooming,
    and changes nothing but the cache. *)
Theorem third_contact_stops_zoom
    (event a b : PointerEvent) (s : GestureDecoder) :
  cache s = [a; b] ->
  handlePointerDown event s
  = Ok tt (set_cache [a; b; event] s)
      (dispatch (zoomStopHandler s) (Zoomstop (zoom_event a b (delta s)))).
Proof.
  intros Hc. rewrite handlePointerDown_eval. unfold down_result.
  rewrite Hc. reflexivity.
Qed.

Lemma third_contact_stops_zoom_witness :
  cache zooming = [contactA; contactB'] /\
  handlePointerDown contactC zooming
  = Ok tt (set_cache [contactA; contactB'; contactC] zooming)
      [Zoomstop (ZoomEvent.mk 10 0 2)].
Proof.
  split; [reflexivity|].
  exact (third_contact_stops_zoom contactC contactA contactB' zooming eq_refl).
Defined.

(** X3.  Beyond three contacts nothing happens but the upkeep of the cache:
    a contact added to three or more, and a removal that arrives while four
    or more are cached, call no handler and leave the anchors as they are. *)
Theorem crowded_cache_is_inert (event : PointerEvent) (s : GestureDecoder) :
  (3 <= length (cache s) ->
   handlePointerDown event s = Ok tt (set_cache (cache s ++ [event]) s) [])
  /\ (4 <= length (cache s) ->
      handlePointerUp event s
      = Ok tt (set_cache (removed event (cache s)) s) []).
Proof.
  split; intros Hlen.
  - rewrite handlePointerDown_eval. unfold down_result.
    destruct (cache s) as [|a [|b [|c rest]]]; cbn [length] in Hlen;
      try lia. reflexivity.
  - rewrite handlePointerUp_eval. unfold up_result.
    destruct (cache s) as [|a [|b [|c [|d rest]]]]; cbn [length] in Hlen;
      try lia. reflexivity.
Qed.

Lemma crowded_cache_is_inert_witness :
  3 <= length (cache frozen) /\ 4 <= length (cache crowded) /\
  handlePointerDown stranger frozen = Ok tt crowded [] /\
  handlePointerUp contactA crowded
  = Ok tt (set_cache [contactB; contactC; stranger] crowded) [].
Proof.
  assert (H3 : 3 <= length (cache frozen)) by (cbn; lia).
  assert (H4 : 4 <= length (cache crowded)) by (cbn; lia).
  split; [exact H3|]. split; [exact H4|]. split.
  - exact (proj1 (crowded_cache_is_inert stranger frozen) H3).
  - exact (proj2 (crowded_cache_is_inert contactA crowded) H4).
Defined.

(** X4.  [handlePointerUp] for the only cached contact: dragstop carries the
    last displacement of that contact from the drag anchor, the cache is
    left empty and the anchors are kept. *)
Theorem last_contact_release_stops_drag
    (event a : PointerEvent) (s : GestureDecoder) :
  cache s = [a] ->
  pointerId a = pointerId event ->
  handlePointerUp event s
  = Ok tt (set_cache [] s)
      (dispatch (dragStopHandler s) (Dragstop (displacement a s))).
Proof.
  intros Hc Hid. rewrite handlePointerUp_eval. unfold up_result.
  rewrite Hc, removed_cons, decide_True by assumption. reflexivity.
Qed.

Lemma last_contact_release_stops_drag_witness :
  cache dragging = [pt 1 15 12] /\
  pointerId (pt 1 15 12) = pointerId (pt 1 0 0) /\
  handlePointerUp (pt 1 0 0) dragging
  = Ok tt (set_cache [] dragging) [Dragstop (DragEvent.mk 5 2)].
Proof.
  split; [reflexivity|]. split; [reflexivity|].
  exact (last_contact_release_stops_drag (pt 1 0 0) (pt 1 15 12) dragging
           eq_refl eq_refl).
Defined.

(** X5.  [handlePointerMove] for the only cached contact: the event takes
    the place of the contact, and dragupdate carries the displacement of the
    new position from the drag anchor. *)
Theorem move_of_one_contact_updates_drag
    (event c : PointerEvent) (s : GestureDecoder) :
  cache s = [c] ->
  pointerId c = pointerId event ->
  handlePointerMove event s
  = Ok tt (set_cache [event] s)
      (dispatch (dragUpdateHandler s) (Dragupdate (displacement event s))).
Proof.
  intros Hc Hid. rewrite handlePointerMove_eval. unfold move_result.
  rewrite Hc, replaced_cons, decide_True by assumption. reflexivity.
Qed.

Lemma move_of_one_contact_updates_drag_witness :
  cache dragging = [pt 1 15 12] /\
  pointerId (pt 1 15 12) = pointerId (pt 1 7 11) /\
  handlePointerMove (pt 1 7 11) dragging
  = Ok tt (set_cache [pt 1 7 11] dragging) [Dragupdate (DragEvent.mk (-3) 1)].
Proof.
  split; [reflexivity|]. split; [reflexivity|].
  exact (move_of_one_contact_updates_drag (pt 1 7 11) (pt 1 15 12) dragging
           eq_refl eq_refl).
Defined.

(** X6.  [handlePointerMove] for one of two cached contacts: the event takes
    the place of the contact it matches, the other contact keeps its place,
    and zoomupdate is computed from the pair as it is after the update,
    against the zoom anchor. *)
Theorem move_of_two_contacts_updates_zoom
    (event a b : PointerEvent) (s : GestureDecoder) :
  cache s = [a; b] ->
  (pointerId a = pointerId event ->
   handlePointerMove event s
   = Ok tt (set_cache [event; b] s)
       (dispatch (zoomUpdateHandler s)
          (Zoomupdate (zoom_event event b (delta s)))))
  /\ (pointerId a <> pointerId event -> pointerId b = pointerId event ->
      handlePointerMove event s
      = Ok tt (set_cache [a; event] s)
          (dispatch (zoomUpdateHandler s)
             (Zoomupdate (zoom_event a event (delta s))))).
Proof.
  intros Hc. split.
  - intros Ha. rewrite handlePointerMove_eval. unfold move_result.
    rewrite Hc, replaced_cons, decide_True by assumption. reflexivity.
  - intros Ha Hb. rewrite handlePointerMove_eval. unfold move_result.
    rewrite Hc, replaced_cons, decide_False by assumption.
    rewrite replaced_cons, decide_True by assumption. reflexivity.
Qed.

Lemma move_of_two_contacts_updates_zoom_witness :
  cache zooming = [contactA; contactB'] /\
  pointerId contactA = pointerId contactA' /\
  pointerId contactA <> pointerId contactB /\
  pointerId contactB' = pointerId contactB /\
  handlePointerMove contactA' zooming
  = Ok tt (set_cache [contactA'; contactB'] zooming)
      [Zoomupdate (ZoomEvent.mk 14 2.5 0x1.4cccccccccccdp+0)] /\
  handlePointerMove contactB zooming
  = Ok tt (set_cache [contactA; contactB] zooming)
      [Zoomupdate (ZoomEvent.mk 5 0 1)].
Proof.
  assert (Hne : pointerId contactA <> pointerId contactB) by discriminate.
  split; [reflexivity|]. split; [reflexivity|]. split; [exact Hne|].
  split; [reflexivity|]. split.
  - exact (proj1 (move_of_two_contacts_updates_zoom contactA' contactA
                    contactB' zooming eq_refl) eq_refl).
  - exact (proj2 (move_of_two_contacts_updates_zoom contactB contactA
                    contactB' zooming eq_refl) Hne eq_refl).
Defined.

(** ** The upkeep of the cache *)

Lemma cached_cons (event c : PointerEvent) (l : list PointerEvent) :
  cached event (c :: l)
  = if decide (pointerId c = pointerId event) then true else cached event l.
Proof.
  unfold cached, ids. cbn [fmap list_fmap].
  destruct (decide (pointerId c = pointerId event)) as [E|E].
  - apply bool_decide_eq_true. rewrite E. left.
  - apply bool_decide_ext. rewrite elem_of_cons. split; [|tauto].
    intros [H|H]; [congruence|exact H].
Qed.

Lemma length_removed (event : PointerEvent) (l : list PointerEvent) :
  length (removed event l)
  = if cached event l then pred (length l) else length l.
Proof.
  induction l as [|c l IH]; [reflexivity|].
  rewrite removed_cons, cached_cons.
  destruct (decide (pointerId c = pointerId event)); [reflexivity|].
  cbn [length]. rewrite IH.
  destruct (cached event l) eqn:Hin; [|reflexivity].
  destruct l; [discriminate Hin|reflexivity].
Qed.


Lemma replaced_first_match
    (event c : PointerEvent) (before after : list PointerEvent) :
  pointerId c = pointerId event ->
  (forall c', c' ∈ before -> pointerId c' <> pointerId event) ->
  replaced event (before ++ c :: after) = before ++ event :: after.
Proof.
  intros Hid Hbefore. induction before as [|b before IH]; cbn [app].
  - rewrite replaced_cons, decide_True by assumption. reflexivity.
  - rewrite replaced_cons, decide_False by (apply Hbefore; left).
    rewrite IH; [reflexivity|]. intros c' Hc'. apply Hbefore. now right.
Qed.

Lemma removed_first_match
    (event c : PointerEvent) (before after : list PointerEvent) :
  pointerId c = pointerId event ->
  (forall c', c' ∈ before -> pointerId c' <> pointerId event) ->
  removed event (before ++ c :: after) = before ++ after.
Proof.
  intros Hid Hbefore. induction before as [|b before IH]; cbn [app].
  - rewrite removed_cons, decide_True by assumption. reflexivity.
  - rewrite removed_cons, decide_False by (apply Hbefore; left).
    rewrite IH; [reflexivity|]. intros c' Hc'. apply Hbefore. now right.
Qed.

(** X8.  Both loops act on the first contact that has the identity of the
    event, and on that one only: the update puts the event in its place, the
    removal takes it out, and the contacts before and after it keep their
    order. *)
Theorem loops_act_on_first_match
    (event c : PointerEvent) (before after : list PointerEvent)
    (s : GestureDecoder) :
  cache s = before ++ c :: after ->
  pointerId c = pointerId event ->
  (forall c', c' ∈ before -> pointerId c' <> pointerId event) ->
  (exists s' out,
      handlePointerMove event s = Ok tt s' out
      /\ cache s' = before ++ event :: after)
  /\ (exists s' out,
      handlePointerUp event s = Ok tt s' out
      /\ cache s' = before ++ after).
Proof.
  intros Hc Hid Hbefore.
  pose proof (replaced_first_match event c before after Hid Hbefore) as Hrep.
  pose proof (removed_first_match event c before after Hid Hbefore) as Hrem.
  split.
  - pose proof (handle_eval (PointerMove event) s) as Hrun.
    pose proof (cache_result (PointerMove event) s) as Hcache.
    cbn [handle cache_after] in Hrun, Hcache.
    eexists _, _. split; [exact Hrun|]. now rewrite Hcache, Hc.
  - pose proof (handle_eval (PointerUp event) s) as Hrun.
    pose proof (cache_result (PointerUp event) s) as Hcache.
    cbn [handle cache_after] in Hrun, Hcache.
    eexists _, _. split; [exact Hrun|]. now rewrite Hcache, Hc.
Qed.

Lemma loops_act_on_first_match_witness :
  cache crowded = [contactA] ++ contactB :: [contactC; stranger] /\
  pointerId contactB = pointerId contactB' /\
  (forall c', c' ∈ [contactA] -> pointerId c' <> pointerId contactB') /\
  (exists s' out,
      handlePointerMove contactB' crowded = Ok tt s' out
      /\ cache s' = [contactA; contactB'; contactC; stranger])
  /\ (exists s' out,
      handlePointerUp contactB' crowded = Ok tt s' out
      /\ cache s' = [contactA; contactC; stranger]).
Proof.
  assert (H : forall c', c' ∈ [contactA] -> pointerId c' <> pointerId contactB').
  { intros c' Hc'. apply list_elem_of_singleton in Hc'. subst c'. discriminate. }
  split; [reflexivity|]. split; [reflexivity|]. split; [exact H|].
  exact (loops_act_on_first_match contactB' contactB [contactA]
           [contactC; stranger] crowded eq_refl eq_refl H).
Defined.

(** X9.  A contact that is added under an identity the cache does not hold,
    and then removed, leaves the cache as it was, contacts and order. *)
Theorem add_then_remove_restores_cache
    (down up : PointerEvent) (s : GestureDecoder) :
  pointerId up = pointerId down ->
  unmatched down s ->
  exists s' out,
    run [PointerDown down; PointerUp up] s = Ok tt s' out
    /\ cache s' = cache s.
Proof.
  intros Hid Hun. rewrite run_eval. eexists _, _. split; [reflexivity|].
  rewrite cache_run_result. cbn [cache_run foldl cache_after].
  change (cache s ++ [down]) with (cache s ++ down :: []).
  rewrite removed_first_match; [apply app_nil_r|now symmetry|].
  intros c' Hc'. rewrite Hid. now apply Hun.
Qed.

Lemma add_then_remove_restores_cache_witness :
  pointerId stranger = pointerId stranger /\
  unmatched stranger frozen /\
  exists s' out,
    run [PointerDown stranger; PointerUp stranger] frozen = Ok tt s' out
    /\ cache s' = cache frozen.
Proof.
  assert (H : unmatched stranger frozen)
    by (apply unmatched_first_index; reflexivity).
  split; [reflexivity|]. split; [exact H|].
  exact (add_then_remove_restores_cache stranger stranger frozen eq_refl H).
Defined.

Lemma replaced_replaced (e1 e2 : PointerEvent) (l : list PointerEvent) :
  pointerId e1 = pointerId e2 ->
  replaced e2 (replaced e1 l) = replaced e2 l.
Proof.
  intros Hid. induction l as [|c l IH]; [reflexivity|].
  rewrite (replaced_cons e1).
  destruct (decide (pointerId c = pointerId e1)) as [E|E].
  - rewrite !replaced_cons, !decide_True by congruence. reflexivity.
  - rewrite !replaced_cons, !decide_False by congruence. now rewrite IH.
Qed.

Lemma removed_replaced (e1 e2 : PointerEvent) (l : list PointerEvent) :
  pointerId e1 = pointerId e2 ->
  removed e2 (replaced e1 l) = removed e2 l.
Proof.
  intros Hid. induction l as [|c l IH]; [reflexivity|].
  rewrite (replaced_cons e1).
  destruct (decide (pointerId c = pointerId e1)) as [E|E].
  - rewrite !removed_cons, !decide_True by congruence. reflexivity.
  - rewrite !removed_cons, !decide_False by congruence. now rewrite IH.
Qed.

(** X10.  Only the last update of a contact counts for the cache: an update
    followed by an update, or by the removal, of the same identity leaves the
    cache that the second notification alone would leave. *)
Theorem later_notification_overrides_update
    (e1 e2 : PointerEvent) (s : GestureDecoder) :
  pointerId e1 = pointerId e2 ->
  (exists s1 out1 s2 out2,
      run [PointerMove e1; PointerMove e2] s = Ok tt s1 out1
      /\ run [PointerMove e2] s = Ok tt s2 out2
      /\ cache s1 = cache s2)
  /\ (exists s1 out1 s2 out2,
      run [PointerMove e1; PointerUp e2] s = Ok tt s1 out1
      /\ run [PointerUp e2] s = Ok tt s2 out2
      /\ cache s1 = cache s2).
Proof.
  intros Hid. split.
  - eexists _, _, _, _. rewrite !run_eval.
    split; [reflexivity|]. split; [reflexivity|].
    rewrite !cache_run_result. cbn [cache_run foldl cache_after].
    now apply replaced_replaced.
  - eexists _, _, _, _. rewrite !run_eval.
    split; [reflexivity|]. split; [reflexivity|].
    rewrite !cache_run_result. cbn [cache_run foldl cache_after].
    now apply removed_replaced.
Qed.

Lemma later_notification_overrides_update_witness :
  pointerId contactB = pointerId contactB' /\
  (exists s1 out1 s2 out2,
      run [PointerMove contactB; PointerMove contactB'] frozen = Ok tt s1 out1
      /\ run [PointerMove contactB'] frozen = Ok tt s2 out2
      /\ cache s1 = cache s2)
  /\ (exists s1 out1 s2 out2,
      run [PointerMove contactB; PointerUp contactB'] frozen = Ok tt s1 out1
      /\ run [PointerUp contactB'] frozen = Ok tt s2 out2
      /\ cache s1 = cache s2).
Proof.
  split; [reflexivity|].
  exact (later_notification_overrides_update contactB contactB' frozen eq_refl).
Defined.

(** ** Handlers and gesture state do not interfere *)


Lemma perform_deliver (type : DomEventType) (event : PointerEvent) :
  perform (Deliver type event) = handle (notification_of type event).
Proof. destruct type; reflexivity. Qed.

Lemma handler_of_same (s s' : GestureDecoder) :
  same_handlers s s' -> forall t, handler_of t s' = handler_of t s.
Proof. intros (H1 & H2 & H3 & H4 & H5 & H6) t. destruct t; assumption. Qed.




(** X13.  A [pointermove] never writes an anchor and calls at most one
    handler, for an update; the other notifications call at most two
    handlers and never one for an update. *)
Theorem notifications_fire_their_own_events
    (n : Notification) (s : GestureDecoder) :
  exists s' out,
    handle n s = Ok tt s' out
    /\ forallb (fits n) out = true
    /\ match n with
       | PointerMove _ => length out <= 1 /\ same_anchors s s'
       | _ => length out <= 2
       end.
Proof.
  rewrite handle_eval. eexists _, _. split; [reflexivity|].
  destruct n as [event|event|event]; cbn [result fits].
  - unfold down_result.
    destruct (cache s) as [|a [|b [|c rest]]]; cbn [fst snd];
      repeat (match goal with
              | |- context [dispatch ?h _] => destruct h
              end; cbn [dispatch]); cbn; auto.
  - unfold move_result. cbn [cache set_cache].
    destruct (replaced event (cache s)) as [|a [|b [|c rest]]]; cbn [fst snd];
      repeat (match goal with
              | |- context [dispatch ?h _] => destruct h
              end; cbn [dispatch]); cbn; repeat split; auto.
  - unfold up_result.
    destruct (cache s) as [|a [|b [|c [|d rest]]]]; cbn [fst snd];
      repeat (match goal with
              | |- context [dispatch ?h _] => destruct h
              end; cbn [dispatch]); cbn; auto.
Qed.

(** ** Sequences of notifications *)

Lemma run_result_app (ns1 ns2 : list Notification) (s : GestureDecoder) :
  run_result (ns1 ++ ns2) s
  = (fst (run_result ns2 (fst (run_result ns1 s))),
     snd (run_result ns1 s) ++ snd (run_result ns2 (fst (run_result ns1 s)))).
Proof.
  revert s. induction ns1 as [|n ns1 IH]; intros s; cbn [app run_result fst snd].
  - now destruct (run_result ns2 s).
  - rewrite IH. cbn [fst snd]. now rewrite app_assoc.
Qed.

(** X14.  A decoder with an empty cache ignores updates and removals,
    whatever their identities and however many (the [pointermove],
    [pointerout] and [pointerleave] of a mouse that hovers, say): nothing is
    called and the decoder does not change. *)
Theorem idle_decoder_ignores_updates_and_removals
    (ns : list Notification) (s : GestureDecoder) :
  cache s = [] ->
  forallb not_added ns = true ->
  run ns s = Ok tt s [].
Proof.
  intros Hc Hns. induction ns as [|n ns IH]; [reflexivity|].
  cbn [forallb] in Hns. apply andb_true_iff in Hns as [Hn Hns].
  cbn [run]. unfold bind. rewrite handle_eval.
  assert (Hres : result n s = (s, [])).
  { destruct n as [event|event|event]; [discriminate Hn| |]; cbn [result].
    - unfold move_result. rewrite Hc, replaced_nil. cbn.
      now rewrite <- Hc, set_cache_same.
    - unfold up_result. rewrite Hc, removed_nil. cbn.
      now rewrite <- Hc, set_cache_same. }
  rewrite Hres. cbn [fst snd]. now rewrite (IH Hns).
Qed.

Lemma idle_decoder_ignores_updates_and_removals_witness :
  cache listening = [] /\
  forallb not_added
    [PointerMove contactA; PointerUp contactA; PointerUp stranger;
     PointerMove contactB] = true /\
  run [PointerMove contactA; PointerUp contactA; PointerUp stranger;
       PointerMove contactB] listening = Ok tt listening [].
Proof.
  split; [reflexivity|]. split; [reflexivity|].
  exact (idle_decoder_ignores_updates_and_removals
           [PointerMove contactA; PointerUp contactA; PointerUp stranger;
            PointerMove contactB] listening eq_refl eq_refl).
Defined.

(** X15.  From an empty cache, two contacts in a row start a drag at the
    first one, stop it at once with displacement (0, 0), and start the zoom
    on the pair: the drag anchor is the first contact, the zoom anchor the
    distance of the two. *)
Theorem two_contacts_in_a_row_start_zoom
    (a b : PointerEvent) (s : GestureDecoder) :
  cache s = [] ->
  run [PointerDown a; PointerDown b] s
  = Ok tt (set_delta (distance a b) (drag_started a (set_cache [a; b] s)))
      (dispatch (dragStartHandler s) (Dragstart (DragEvent.mk 0 0))
       ++ dispatch (dragStopHandler s) (Dragstop (DragEvent.mk 0 0))
       ++ dispatch (zoomStartHandler s)
            (Zoomstart (ZoomEvent.mk (fst (midpoint a b)) (snd (midpoint a b)) 1))).
Proof.
  intros Hc. rewrite run_eval. cbn [run_result result].
  assert (E1 : down_result a s
               = (drag_started a (set_cache [a] s),
                  dispatch (dragStartHandler s) (Dragstart zero_displacement))).
  { unfold down_result. now rewrite Hc. }
  rewrite E1. cbn [fst snd].
  assert (E2 : down_result b (drag_started a (set_cache [a] s))
               = (set_delta (distance a b)
                    (drag_started a (set_cache [a; b] s)),
                  dispatch (dragStopHandler s) (Dragstop (DragEvent.mk 0 0))
                  ++ dispatch (zoomStartHandler s)
                       (Zoomstart (zoom_start_event a b)))).
  { unfold down_result, displacement. cbn.
    now rewrite clientX_sub_diag, clientY_sub_diag. }
  rewrite E2. cbn [fst snd]. now rewrite app_nil_r.
Qed.

Lemma two_contacts_in_a_row_start_zoom_witness :
  cache listening = [] /\
  run [PointerDown contactC; PointerDown contactA] listening
  = Ok tt (set_delta 5
             (drag_started contactC (set_cache [contactC; contactA] listening)))
      [Dragstart (DragEvent.mk 0 0); Dragstop (DragEvent.mk 0 0);
       Zoomstart (ZoomEvent.mk 2 1.5 1)].
Proof.
  split; [reflexivity|].
  exact (two_contacts_in_a_row_start_zoom contactC contactA listening eq_refl).
Defined.

Lemma perform_all_deliveries
    (events : list (DomEventType * PointerEvent)) (s : GestureDecoder) :
  perform_all ((fun te => Deliver (fst te) (snd te)) <$> events) s
  = run ((fun te => notification_of (fst te) (snd te)) <$> events) s.
Proof.
  revert s. induction events as [|[type event] events IH]; intros s;
    [reflexivity|].
  cbn [fmap list_fmap perform_all run fst snd]. unfold bind.
  rewrite perform_deliver. destruct (handle _ s); [|reflexivity].
  now rewrite IH.
Qed.

(** X16.  [pointerup], [pointercancel], [pointerout] and [pointerleave] all
    run [handlePointerUp], so a release that the element sees as a
    [pointerup] followed by a [pointerout] is handled twice.  When it ends a
    zoom of two contacts, the first event stops the zoom and starts the drag
    of the other contact, and the second one, which finds a cache of size 1,
    fires dragstop with displacement (0, 0) although that contact is still
    cached: the cache and the drag anchor stay as the first event left
    them. *)
Theorem repeated_release_stops_the_new_drag
    (event a b : PointerEvent) (s : GestureDecoder) :
  cache s = [a; b] ->
  pointerId a = pointerId event ->
  pointerId b <> pointerId event ->
  perform_all [Deliver pointerup event; Deliver pointerout event] s
  = Ok tt (drag_started b (set_cache [b] s))
      (dispatch (zoomStopHandler s) (Zoomstop (zoom_event a b (delta s)))
       ++ dispatch (dragStartHandler s) (Dragstart (DragEvent.mk 0 0))
       ++ dispatch (dragStopHandler s) (Dragstop (DragEvent.mk 0 0))).
Proof.
  intros Hc Ha Hb.
  change [Deliver pointerup event; Deliver pointerout event]
    with ((fun te => Deliver (fst te) (snd te))
            <$> [(pointerup, event); (pointerout, event)]).
  rewrite perform_all_deliveries, run_eval.
  cbn [fmap list_fmap fst snd notification_of run_result result].
  assert (E1 : up_result event s
               = (drag_started b (set_cache [b] s),
                  dispatch (zoomStopHandler s)
                    (Zoomstop (zoom_event a b (delta s)))
                  ++ dispatch (dragStartHandler s) (Dragstart zero_displacement))).
  { unfold up_result. rewrite Hc, removed_cons, decide_True by assumption.
    reflexivity. }
  rewrite E1. cbn [fst snd].
  assert (E2 : up_result event (drag_started b (set_cache [b] s))
               = (drag_started b (set_cache [b] s),
                  dispatch (dragStopHandler s) (Dragstop (DragEvent.mk 0 0)))).
  { unfold up_result, displacement. cbn [cache drag_started set_x set_y set_cache].
    rewrite removed_cons, decide_False, removed_nil by assumption.
    cbn. now rewrite clientX_sub_diag, clientY_sub_diag. }
  rewrite E2. cbn [fst snd]. now rewrite app_nil_r, <- app_assoc.
Qed.

Lemma repeated_release_stops_the_new_drag_witness :
  cache zooming = [contactA; contactB'] /\
  pointerId contactA = pointerId contactA /\
  pointerId contactB' <> pointerId contactA /\
  perform_all [Deliver pointerup contactA; Deliver pointerout contactA] zooming
  = Ok tt (drag_started contactB' (set_cache [contactB'] zooming))
      [Zoomstop (ZoomEvent.mk 10 0 2); Dragstart (DragEvent.mk 0 0);
       Dragstop (DragEvent.mk 0 0)].
Proof.
  assert (Hne : pointerId contactB' <> pointerId contactA) by discriminate.
  split; [reflexivity|]. split; [reflexivity|]. split; [exact Hne|].
  exact (repeated_release_stops_the_new_drag contactA contactA contactB'
           zooming eq_refl eq_refl Hne).
Defined.

(** X17.  After a release from three contacts that takes the contact at
    index 0 away, the zoom goes on with the contacts that were at indices 1
    and 2, measured against the distance of those that were at indices 0 and
    1: zoomstart carries the midpoint of the old pair, and the zoomupdate of
    the next move carries the new pair's midpoint and, as scale, the new
    pair's distance over the old pair's. *)
Theorem release_of_first_of_three_mixes_pairs
    (event move a b c : PointerEvent) (s : GestureDecoder) :
  cache s = [a; b; c] ->
  pointerId a = pointerId event ->
  pointerId b = pointerId move ->
  run [PointerUp event; PointerMove move] s
  = Ok tt (set_cache [move; c] (set_delta (distance a b) s))
      (dispatch (zoomStartHandler s)
         (Zoomstart (ZoomEvent.mk (fst (midpoint a b)) (snd (midpoint a b)) 1))
       ++ dispatch (zoomUpdateHandler s)
            (Zoomupdate
               (ZoomEvent.mk (fst (midpoint move c)) (snd (midpoint move c))
                  (distance move c / distance a b)%float))).
Proof.
  intros Hc Ha Hb. rewrite run_eval. cbn [run_result result].
  assert (E1 : up_result event s
               = (set_cache [b; c] (set_delta (distance a b) s),
                  dispatch (zoomStartHandler s)
                    (Zoomstart (zoom_start_event a b)))).
  { unfold up_result. rewrite Hc, removed_cons, decide_True by assumption.
    reflexivity. }
  rewrite E1. cbn [fst snd].
  assert (E2 : move_result move (set_cache [b; c] (set_delta (distance a b) s))
               = (set_cache [move; c] (set_delta (distance a b) s),
                  dispatch (zoomUpdateHandler s)
                    (Zoomupdate (zoom_event move c (distance a b))))).
  { unfold move_result. cbn [cache set_cache].
    rewrite replaced_cons, decide_True by assumption. reflexivity. }
  rewrite E2. cbn [fst snd]. now rewrite app_nil_r.
Qed.

Lemma release_of_first_of_three_mixes_pairs_witness :
  cache frozen = [contactA; contactB; contactC] /\
  pointerId contactA = pointerId contactA /\
  pointerId contactB = pointerId (pt 2 8 0) /\
  run [PointerUp contactA; PointerMove (pt 2 8 0)] frozen
  = Ok tt (set_cache [pt 2 8 0; contactC] (set_delta 10 frozen))
      [Zoomstart (ZoomEvent.mk 5 0 1); Zoomupdate (ZoomEvent.mk 6 1.5 0.5)].
Proof.
  split; [reflexivity|]. split; [reflexivity|]. split; [reflexivity|].
  exact (release_of_first_of_three_mixes_pairs contactA (pt 2 8 0) contactA
           contactB contactC frozen eq_refl eq_refl eq_refl).
Defined.

Lemma default_last_cons (c m : PointerEvent) (ms : list PointerEvent) :
  default c (last (m :: ms)) = default m (last ms).
Proof. rewrite last_cons. now destruct (last ms). Qed.

Lemma moves_of_one_contact
    (moves : list PointerEvent) (c : PointerEvent) (s : GestureDecoder) :
  cache s = [c] ->
  Forall (fun m => pointerId m = pointerId c) moves ->
  run_result (PointerMove <$> moves) s
  = (set_cache [default c (last moves)] s,
     concat ((fun m => dispatch (dragUpdateHandler s)
                         (Dragupdate (displacement m s))) <$> moves)).
Proof.
  revert c s. induction moves as [|m ms IH]; intros c s Hc Hall.
  - cbn. now rewrite <- Hc, set_cache_same.
  - apply Forall_cons in Hall as [Hm Hms].
    cbn [fmap list_fmap run_result result concat].
    assert (E : move_result m s
                = (set_cache [m] s,
                   dispatch (dragUpdateHandler s)
                     (Dragupdate (displacement m s)))).
    { unfold move_result. rewrite Hc, replaced_cons, decide_True by congruence.
      reflexivity. }
    rewrite E. cbn [fst snd].
    rewrite (IH m (set_cache [m] s)); [|reflexivity|].
    + rewrite default_last_cons. reflexivity.
    + eapply Forall_impl; [exact Hms|]. cbn. congruence.
Qed.

Lemma pointerId_default_last
    (moves : list PointerEvent) (c : PointerEvent) :
  Forall (fun m => pointerId m = pointerId c) moves ->
  pointerId (default c (last moves)) = pointerId c.
Proof.
  intros Hall. destruct (last moves) as [m|] eqn:Hlast; [|reflexivity].
  apply last_Some_elem_of in Hlast.
  rewrite Forall_forall in Hall. now apply Hall.
Qed.

(** X18.  A whole drag of one contact, from an empty cache: the press fires
    dragstart with (0, 0), each move fires dragupdate with the displacement
    of its position from the position of the press, and the release fires
    dragstop with the displacement of the last move (of the press when
    there is no move).  The position that the release carries is not read.
    The cache is empty again, and the drag anchor is still the position of
    the press. *)
Theorem drag_of_one_contact
    (down up : PointerEvent) (moves : list PointerEvent) (s : GestureDecoder) :
  cache s = [] ->
  Forall (fun m => pointerId m = pointerId down) moves ->
  pointerId up = pointerId down ->
  run (PointerDown down :: (PointerMove <$> moves) ++ [PointerUp up]) s
  = Ok tt (set_cache [] (drag_started down s))
      (dispatch (dragStartHandler s) (Dragstart (DragEvent.mk 0 0))
       ++ concat ((fun m => dispatch (dragUpdateHandler s)
                              (Dragupdate (offset m down))) <$> moves)
       ++ dispatch (dragStopHandler s)
            (Dragstop (offset (default down (last moves)) down))).
Proof.
  intros Hc Hall Hup. rewrite run_eval.
  cbn [run_result result].
  assert (E1 : down_result down s
               = (drag_started down (set_cache [down] s),
                  dispatch (dragStartHandler s) (Dragstart zero_displacement))).
  { unfold down_result. now rewrite Hc. }
  rewrite E1. cbn [fst snd].
  rewrite run_result_app.
  rewrite (moves_of_one_contact moves down
             (drag_started down (set_cache [down] s)) eq_refl Hall).
  cbn [fst snd run_result result].
  assert (E2 : up_result up
                 (set_cache [default down (last moves)]
                    (drag_started down (set_cache [down] s)))
               = (set_cache [] (drag_started down s),
                  dispatch (dragStopHandler s)
                    (Dragstop (offset (default down (last moves)) down)))).
  { unfold up_result. cbn [cache set_cache].
    rewrite removed_cons, decide_True; [reflexivity|].
    rewrite (pointerId_default_last moves down Hall). now symmetry. }
  rewrite E2. cbn [fst snd]. now rewrite app_nil_r.
Qed.

Lemma drag_of_one_contact_witness :
  cache listening = [] /\
  Forall (fun m => pointerId m = pointerId (pt 1 10 10))
    [pt 1 15 12; pt 1 7 11] /\
  pointerId (pt 1 0 0) = pointerId (pt 1 10 10) /\
  run [PointerDown (pt 1 10 10); PointerMove (pt 1 15 12);
       PointerMove (pt 1 7 11); PointerUp (pt 1 0 0)] listening
  = Ok tt (set_cache [] (drag_started (pt 1 10 10) listening))
      [Dragstart (DragEvent.mk 0 0); Dragupdate (DragEvent.mk 5 2);
       Dragupdate (DragEvent.mk (-3) 1); Dragstop (DragEvent.mk (-3) 1)].
Proof.
  assert (H : Forall (fun m => pointerId m = pointerId (pt 1 10 10))
                [pt 1 15 12; pt 1 7 11])
    by (repeat constructor).
  split; [reflexivity|]. split; [exact H|]. split; [reflexivity|].
  exact (drag_of_one_contact (pt 1 10 10) (pt 1 0 0) [pt 1 15 12; pt 1 7 11]
           listening eq_refl H eq_refl).
Defined.

(** ** The events a handler sees are well bracketed *)

Lemma phase_run_app (p : Phase) (out1 out2 : list Emitted) :
  phase_run p (out1 ++ out2)
  = match phase_run p out1 with
    | Some p' => phase_run p' out2
    | None => None
    end.
Proof.
  revert p. induction out1 as [|e out1 IH]; intros p; [reflexivity|].
  cbn [app phase_run]. destruct (phase_step p e); [apply IH|reflexivity].
Qed.

Lemma all_handlers_fields (s : GestureDecoder) :
  all_handlers s ->
  exists h1 h2 h3 h4 h5 h6,
    dragStartHandler s = Some h1 /\ dragUpdateHandler s = Some h2
    /\ dragStopHandler s = Some h3 /\ zoomStartHandler s = Some h4
    /\ zoomUpdateHandler s = Some h5 /\ zoomStopHandler s = Some h6.
Proof.
  intros H.
  destruct (H dragstart) as [h1 H1], (H dragupdate) as [h2 H2],
    (H dragstop) as [h3 H3], (H zoomstart) as [h4 H4],
    (H zoomupdate) as [h5 H5], (H zoomstop) as [h6 H6].
  cbn in *. eauto 12.
Qed.

Lemma all_handlers_same (s s' : GestureDecoder) :
  same_handlers s s' -> all_handlers s -> all_handlers s'.
Proof.
  intros Hsame Hall type. rewrite (handler_of_same s s' Hsame). apply Hall.
Qed.

Lemma phase_after_notification (n : Notification) (s : GestureDecoder) :
  all_handlers s ->
  matched_if_removal n (cache s) = true ->
  phase_run (phase_of_size (length (cache s))) (snd (result n s))
  = Some (phase_of_size (length (cache (fst (result n s))))).
Proof.
  intros Hall Hmatch.
  destruct (all_handlers_fields s Hall)
    as (h1 & h2 & h3 & h4 & h5 & h6 & H1 & H2 & H3 & H4 & H5 & H6).
  rewrite cache_result.
  destruct n as [event|event|event]; cbn [result cache_after matched_if_removal] in *.
  - rewrite length_app. unfold down_result.
    rewrite H1, H3, H4, H6.
    destruct (cache s) as [|a [|b [|c rest]]]; reflexivity.
  - rewrite length_replaced. unfold move_result. cbn [cache set_cache].
    rewrite H2, H5.
    pose proof (length_replaced event (cache s)) as Hlen.
    destruct (replaced event (cache s)) as [|a [|b [|c rest]]];
      rewrite <- Hlen; reflexivity.
  - rewrite length_removed, Hmatch. unfold up_result.
    rewrite H1, H3, H4, H6.
    destruct (cache s) as [|a [|b [|c [|d rest]]]]; reflexivity.
Qed.

(** X19.  When a handler is registered for every kind and every removal is
    for a contact that is cached when it arrives, the handlers see well
    bracketed gestures: updates and a stop only after the start of their
    gesture, no start while a gesture is in progress; and the gesture in
    progress is the one the size of the cache tells (drag at 1, zoom at 2,
    none otherwise). *)
Theorem events_are_well_bracketed (ns : list Notification) (s : GestureDecoder) :
  all_handlers s ->
  removals_matched (cache s) ns = true ->
  exists s' out,
    run ns s = Ok tt s' out
    /\ phase_run (phase_of_size (length (cache s))) out
       = Some (phase_of_size (length (cache s'))).
Proof.
  intros Hall Hns. rewrite run_eval. eexists _, _. split; [reflexivity|].
  revert s Hall Hns. induction ns as [|n ns IH]; intros s Hall Hns;
    [reflexivity|].
  cbn [removals_matched] in Hns. apply andb_true_iff in Hns as [Hn Hns].
  cbn [run_result fst snd]. rewrite phase_run_app.
  rewrite phase_after_notification; [|assumption|].
  - apply IH.
    + eapply all_handlers_same; [apply same_handlers_result|assumption].
    + now rewrite cache_result.
  - now destruct n.
Qed.

Lemma events_are_well_bracketed_witness :
  all_handlers listening /\
  removals_matched (cache listening)
    [PointerDown contactA; PointerDown contactB; PointerMove contactB';
     PointerDown contactC; PointerUp contactA; PointerUp contactC;
     PointerMove contactB] = true /\
  exists s' out,
    run [PointerDown contactA; PointerDown contactB; PointerMove contactB';
         PointerDown contactC; PointerUp contactA; PointerUp contactC;
         PointerMove contactB] listening = Ok tt s' out
    /\ phase_run (phase_of_size (length (cache listening))) out
       = Some (phase_of_size (length (cache s'))).
Proof.
  assert (H : all_handlers listening) by (intros []; cbn; eauto).
  split; [exact H|]. split; [reflexivity|].
  exact (events_are_well_bracketed
           [PointerDown contactA; PointerDown contactB; PointerMove contactB';
            PointerDown contactC; PointerUp contactA; PointerUp contactC;
            PointerMove contactB] listening H eq_refl).
Defined.
